(** * ExactInExitHandler: a shallow embedding of
      src/services/balancer/pools/exits/handlers/exact-in-exit.handler.ts

    The handler orchestrates calls into the Balancer SDK, the ethers
    fixed-point and address utilities and the transaction service.  The
    handler itself is embedded statement by statement; the collaborators
    whose code lives outside the file are either inputs of the model (the
    pool registry, the SDK pool object, the signer, the transaction
    service) or small executable models of the library functions the
    handler calls ([getAddress], [parseFixed], [formatFixed], the address
    helpers of [@/lib/utils]). *)

From Stdlib Require Import ZArith QArith Lia List Ascii String Bool.
From stdpp Require Import base option list strings gmap.

Local Open Scope Z_scope.

(** ** Keccak-256, as used by the EIP-55 address checksum *)

Module Keccak.

Definition lane_mask : Z := 0xFFFFFFFFFFFFFFFF.

(** rotate a 64-bit lane left by [n] bits *)
Definition rol (v n : Z) : Z :=
  Z.land (Z.lor (Z.shiftl v n) (Z.shiftr v (64 - n))) lane_mask.

Definition round_constants : list Z :=
  [ 0x0000000000000001; 0x0000000000008082; 0x800000000000808A;
    0x8000000080008000; 0x000000000000808B; 0x0000000080000001;
    0x8000000080008081; 0x8000000000008009; 0x000000000000008A;
    0x0000000000000088; 0x0000000080008009; 0x000000008000000A;
    0x000000008000808B; 0x800000000000008B; 0x8000000000008089;
    0x8000000000008003; 0x8000000000008002; 0x8000000000000080;
    0x000000000000800A; 0x800000008000000A; 0x8000000080008081;
    0x8000000000008080; 0x0000000080000001; 0x8000000080008008 ].

(** rotation offsets, indexed by [x + 5 * y] *)
Definition rotation_offsets : list Z :=
  [ 0;  1; 62; 28; 27;
   36; 44;  6; 55; 20;
    3; 10; 43; 25; 39;
   41; 45; 15; 21;  8;
   18;  2; 61; 56; 14 ].

Definition lane (A : list Z) (x y : nat) : Z :=
  nth (x mod 5 + 5 * (y mod 5))%nat A 0.

Definition theta (A : list Z) : list Z :=
  let C x :=
    Z.lxor (lane A x 0) (Z.lxor (lane A x 1) (Z.lxor (lane A x 2)
      (Z.lxor (lane A x 3) (lane A x 4)))) in
  let D x := Z.lxor (C (x + 4)%nat) (rol (C (x + 1)%nat) 1) in
  map (fun i => Z.lxor (nth i A 0) (D (i mod 5)%nat)) (seq 0 25).

(** [B[y, 2x+3y] = rol(A[x, y], r[x, y])], read backwards: the lane that
    lands at [(X, Y)] comes from [x = (X + 3Y) mod 5], [y = X]. *)
Definition rho_pi (A : list Z) : list Z :=
  map (fun i =>
         let X := (i mod 5)%nat in
         let Y := (i / 5)%nat in
         let x := ((X + 3 * Y) mod 5)%nat in
         let y := X in
         rol (lane A x y) (nth (x + 5 * y)%nat rotation_offsets 0))
      (seq 0 25).

Definition chi (B : list Z) : list Z :=
  map (fun i =>
         let x := (i mod 5)%nat in
         let y := (i / 5)%nat in
         Z.lxor (lane B x y)
                (Z.land (Z.lxor (lane B (x + 1) y) lane_mask)
                        (lane B (x + 2) y)))
      (seq 0 25).

Definition iota (rc : Z) (A : list Z) : list Z :=
  match A with
  | a :: rest => Z.lxor a rc :: rest
  | [] => []
  end.

Definition keccak_round (A : list Z) (rc : Z) : list Z :=
  iota rc (chi (rho_pi (theta A))).

Definition keccak_f (A : list Z) : list Z :=
  fold_left keccak_round round_constants A.

(** little-endian lane of eight bytes *)
Fixpoint lane_of_bytes (bs : list Z) : Z :=
  match bs with
  | [] => 0
  | b :: rest => Z.lor b (Z.shiftl (lane_of_bytes rest) 8)
  end.

Definition bytes_of_lane (v : Z) : list Z :=
  map (fun i => Z.land (Z.shiftr v (8 * Z.of_nat i)) 0xFF) (seq 0 8).

Definition rate : nat := 136.

(** pad10*1 with the original Keccak domain byte 0x01 *)
Definition pad (msg : list Z) : list Z :=
  let q := (rate - (List.length msg) mod rate)%nat in
  if (q =? 1)%nat then msg ++ [0x81]
  else msg ++ [0x01] ++ repeat 0 (q - 2) ++ [0x80].

Fixpoint absorb (blocks : nat) (m : list Z) (A : list Z) : list Z :=
  match blocks with
  | O => A
  | S blocks' =>
      let block := firstn rate m in
      let lanes :=
        map (fun i => lane_of_bytes (firstn 8 (skipn (8 * i) block)))
            (seq 0 (rate / 8)) in
      let A' :=
        map (fun i => Z.lxor (nth i A 0) (nth i lanes 0)) (seq 0 25) in
      absorb blocks' (skipn rate m) (keccak_f A')
  end.

Definition keccak256 (msg : list Z) : list Z :=
  let m := pad msg in
  let A := absorb (List.length m / rate) m (repeat 0 25) in
  firstn 32 (flat_map bytes_of_lane A).

End Keccak.

(** ** Thrown values and results

    Every [throw] of the handler and of the libraries it calls is a
    constructor of [Error]; a computation that may throw returns a
    [Result]. *)

Inductive Error : Type :=
| FailedToFindPool (id : string)
    (* new Error('Failed to find pool: ' + this.pool.value.id) *)
| CouldNotFindExitToken (address : string) (allTokens : list string)
    (* new Error('Could not find exit token in pool tokens list: ' ...) *)
| FailedToConstructExit
    (* new Error('Failed to construct exit.'), thrown by exit and queryExit *)
| FailedToCalculatePriceImpact
    (* new Error('Failed to calculate price impact.') *)
| TypeError (message : string)
    (* property access on undefined *)
| ArgumentError (message : string)
    (* thrown by the ethers logger *)
| Rejected (reason : string)
    (* thrown or rejected by a collaborator: signer, registry, SDK pool,
       transaction service *).

Inductive Result (A : Type) : Type :=
| Ok (a : A)
| Throw (e : Error).
Arguments Ok {A} a.
Arguments Throw {A} e.

Definition bindR {A B : Type} (r : Result A) (k : A -> Result B) : Result B :=
  match r with
  | Ok a => k a
  | Throw e => Throw e
  end.

Declare Scope result_scope.
Delimit Scope result_scope with res.
Notation "'let?' x ':=' r 'in' k" :=
  (bindR r (fun x => k))
  (at level 10, x name, r at level 100, k at level 200,
   format "'[v' 'let?'  x  ':='  r  'in' '/' k ']'") : result_scope.
Local Open Scope result_scope.

(** ** The ethers utilities the handler calls *)

Module Ethers.

Definition code (c : ascii) : Z := Z.of_N (N_of_ascii c).
Definition chr (z : Z) : ascii := ascii_of_N (Z.to_N z).

Definition isDigit (c : ascii) : bool := (48 <=? code c) && (code c <=? 57).
Definition isLowerHex (c : ascii) : bool := (97 <=? code c) && (code c <=? 102).
Definition isUpperHex (c : ascii) : bool := (65 <=? code c) && (code c <=? 70).
Definition isHexDigit (c : ascii) : bool :=
  isDigit c || isLowerHex c || isUpperHex c.

Definition toLowerCase_char (c : ascii) : ascii :=
  if (65 <=? code c) && (code c <=? 90) then chr (code c + 32) else c.
Definition toUpperCase_char (c : ascii) : ascii :=
  if (97 <=? code c) && (code c <=? 122) then chr (code c - 32) else c.

Definition toLowerCase (s : string) : string :=
  string_of_list_ascii (map toLowerCase_char (list_ascii_of_string s)).

Definition eqb_chars (a b : list ascii) : bool := bool_decide (a = b).

Definition startsWith (c : ascii) (cs : list ascii) : bool :=
  match cs with
  | c0 :: _ => (c0 =? c)%char
  | [] => false
  end.

(** *** @ethersproject/address *)

(** [getChecksumAddress] on the forty hexadecimal characters after "0x" *)
Definition getChecksumAddress (body : list ascii) : list ascii :=
  let chars := map toLowerCase_char body in
  let hashed := Keccak.keccak256 (map code chars) in
  let nibbles := flat_map (fun b => [Z.shiftr b 4; Z.land b 0x0f]) hashed in
  map (fun cn : ascii * Z =>
         if 8 <=? snd cn then toUpperCase_char (fst cn) else fst cn)
      (combine chars nibbles).

(** Modelled from the spec: [getAddress] of [@ethersproject/address] is
    not under src/.  It gives the canonical checksummed form of a 40-digit
    hexadecimal address, with or without the "0x" prefix; a mixed-case
    input must already carry the right checksum, anything else is
    rejected.  ICAP addresses are left out. *)
Definition getAddress (address : string) : Result string :=
  let cs := list_ascii_of_string address in
  let body :=
    match cs with
    | "0"%char :: "x"%char :: rest => rest
    | _ => cs
    end in
  if (List.length body =? 40)%nat && forallb isHexDigit body then
    let result := getChecksumAddress body in
    if existsb isUpperHex body && existsb isLowerHex body
       && negb (eqb_chars result body)
    then Throw (ArgumentError "bad address checksum")
    else Ok (string_of_list_ascii ("0"%char :: "x"%char :: result))
  else Throw (ArgumentError "invalid address").

(** *** @ethersproject/bignumber: BigNumber *)

Definition digit_value (c : ascii) : Z := code c - 48.
Definition digit_char (d : Z) : ascii := chr (48 + d).

Definition hex_value (c : ascii) : Z :=
  if isDigit c then code c - 48
  else if isLowerHex c then code c - 87
  else code c - 55.

(** value of a string of decimal digits *)
Definition value_of_digits (cs : list ascii) : Z :=
  fold_left (fun acc c => 10 * acc + digit_value c) cs 0.

Definition value_of_hex (cs : list ascii) : Z :=
  fold_left (fun acc c => 16 * acc + hex_value c) cs 0.

Fixpoint digits_loop (fuel : nat) (n : Z) (acc : list ascii) : list ascii :=
  match fuel with
  | O => acc
  | S fuel' =>
      let acc' := digit_char (n mod 10) :: acc in
      if n / 10 =? 0 then acc' else digits_loop fuel' (n / 10) acc'
  end.

(** decimal digits of a natural number, most significant first *)
Definition digits_of (n : Z) : list ascii :=
  digits_loop (S (Z.to_nat (Z.log2 n))) n [].

(** [BigNumber.prototype.toString] *)
Definition toString_chars (z : Z) : list ascii :=
  if z <? 0 then "-"%char :: digits_of (- z) else digits_of z.
Definition toString (z : Z) : string :=
  string_of_list_ascii (toString_chars z).

(** "0x" or "0X" followed by at least one hexadecimal digit *)
Definition isHexLiteral (body : list ascii) : bool :=
  match body with
  | c0 :: x :: hex =>
      (c0 =? "0")%char && ((x =? "x")%char || (x =? "X")%char)
      && (0 <? List.length hex)%nat && forallb isHexDigit hex
  | _ => false
  end.

Definition isDecimalLiteral (body : list ascii) : bool :=
  (0 <? List.length body)%nat && forallb isDigit body.

(** [BigNumber.from] on a string: a hexadecimal or a decimal literal,
    each with an optional sign *)
Definition from_chars (cs : list ascii) : Result Z :=
  let negative := startsWith "-" cs in
  let body := if negative then tl cs else cs in
  let sign (v : Z) := if negative then - v else v in
  if isHexLiteral body then Ok (sign (value_of_hex (skipn 2 body)))
  else if isDecimalLiteral body then Ok (sign (value_of_digits body))
  else Throw (ArgumentError "invalid BigNumber string").
Definition from (value : string) : Result Z :=
  from_chars (list_ascii_of_string value).

(** *** @ethersproject/bignumber: fixednumber *)

(** the multiplier "1" followed by [decimals] zeros, as a number *)
Definition getMultiplier (decimals : nat) : Result Z :=
  if (decimals <=? 256)%nat then Ok (10 ^ Z.of_nat decimals)
  else Throw (ArgumentError "invalid decimal size").

Definition padStart (width : nat) (cs : list ascii) : list ascii :=
  repeat "0"%char (width - List.length cs) ++ cs.
Definition padEnd (width : nat) (cs : list ascii) : list ascii :=
  cs ++ repeat "0"%char (width - List.length cs).

(** drop the zeros at the end of a string of digits *)
Fixpoint trimTrailingZeros (cs : list ascii) : list ascii :=
  match cs with
  | [] => []
  | c :: rest =>
      match trimTrailingZeros rest with
      | [] => if (c =? "0")%char then [] else [c]
      | rest' => c :: rest'
      end
  end.

(** the first group of the regular expression that formatFixed applies
    to the fraction (any digits up to the last non-zero one, or a single
    zero): on a non-empty string of digits, the string without its final
    zeros, or "0" when nothing else is left *)
Definition stripFraction (fraction : list ascii) : list ascii :=
  match trimTrailingZeros fraction with
  | [] => ["0"%char]
  | cs => cs
  end.

(** Modelled from the spec: [formatFixed] of [@ethersproject/bignumber] is
    not under src/.  It converts a raw integer amount back into a
    human-decimal string at the given precision: the whole part, a point
    and the fraction without its final zeros (at least one digit), as in
    raw 5000000 at 6 decimals printing as "5.0". *)
Definition formatFixed_bn (value : Z) (decimals : nat) : Result string :=
  let? multiplier := getMultiplier decimals in
  let negative := value <? 0 in
  let value := if negative then - value else value in
  let fraction := padStart decimals (digits_of (value mod multiplier)) in
  let fraction := stripFraction fraction in
  let whole := digits_of (value / multiplier) in
  let text :=
    if (decimals =? 0)%nat then whole
    else whole ++ "."%char :: fraction in
  Ok (string_of_list_ascii (if negative then "-"%char :: text else text)).

(** [formatFixed(value, decimals)] with [value] a string, as the handler
    calls it *)
Definition formatFixed (value : string) (decimals : nat) : Result string :=
  let? multiplier := getMultiplier decimals in
  let? v := from value in
  formatFixed_bn v decimals.

(** [value.split(".")] *)
Fixpoint split_dot (cs : list ascii) : list (list ascii) :=
  match cs with
  | [] => [[]]
  | c :: rest =>
      if (c =? ".")%char then [] :: split_dot rest
      else match split_dot rest with
           | comp :: comps => (c :: comp) :: comps
           | [] => [[c]]
           end
  end.

Definition isDecimalChar (c : ascii) : bool := isDigit c || (c =? ".")%char.

(** Modelled from the spec: [parseFixed] of [@ethersproject/bignumber] is
    not under src/.  It converts a human-readable decimal string to its
    fixed-point representation at the given precision, and rejects what
    is not a decimal number or has more fractional digits than the
    precision holds. *)
Definition parseFixed (value : string) (decimals : nat) : Result Z :=
  let? multiplier := getMultiplier decimals in
  let cs := list_ascii_of_string value in
  let negative := startsWith "-" cs in
  let body := if negative then tl cs else cs in
  (* value.match(/^-?[0-9.]+$/) *)
  if negb (forallb isDecimalChar body) || (List.length body =? 0)%nat
  then Throw (ArgumentError "invalid decimal value")
  else if eqb_chars body ["."%char]
  then Throw (ArgumentError "missing value")
  else
    let comps := split_dot body in
    if (2 <? List.length comps)%nat
    then Throw (ArgumentError "too many decimal points")
    else
      let whole := nth 0 comps [] in
      let fraction := nth 1 comps [] in
      let whole := match whole with [] => ["0"%char] | _ => whole end in
      let fraction := match fraction with [] => ["0"%char] | _ => fraction end in
      let fraction := trimTrailingZeros fraction in
      if (decimals <? List.length fraction)%nat
      then Throw (ArgumentError "fractional component exceeds decimals")
      else
        let fraction := match fraction with [] => ["0"%char] | _ => fraction end in
        let fraction := padEnd decimals fraction in
        let? wholeValue := from_chars whole in
        let? fractionValue := from_chars fraction in
        let wei := wholeValue * multiplier + fractionValue in
        Ok (if negative then - wei else wei).

End Ethers.

(** ** Data model *)

(** [TokenInfo] of [@/types/TokenList]: the fields the handler reads *)
Module TokenInfo.
Record t : Type := { address : string; decimals : nat }.
End TokenInfo.

(** a token of the pool's token tree; [decimals] may be absent *)
Module PoolToken.
Record t : Type := { address : string; decimals : option nat }.
End PoolToken.

(** [Pool] of [@/services/pool/types]: the fields the handler reads, and
    the token list the pool carries *)
Module Pool.
Record t : Type :=
  { id : string; address : string; tokens : list PoolToken.t }.
End Pool.

(** one requested output of [ExitParams.amountsOut] *)
Module AmountOut.
Record t : Type := { address : string; value : string }.
End AmountOut.

(** the signer of [ExitParams]: what awaiting [signer.getAddress()] gives *)
Module Signer.
Record t : Type := { getAddress : Result string }.
End Signer.

(** [tokenInfo] is a JavaScript object used as a map; [Object.keys] lists
    its keys in insertion order, so it is kept as an association list. *)
Definition TokenInfoMap : Type := list (string * TokenInfo.t).

(** [slippageBsp] is a JavaScript number of which the handler reads nothing
    but [slippageBsp.toString()]: it is given by what that call prints, so
    that every number is covered, the ones printed with an exponent or a
    fraction included. *)
Module JsNumber.
Record t : Type := { toString : string }.
End JsNumber.

Record ExitParams : Type :=
  { signer : Signer.t;
    tokenInfo : TokenInfoMap;
    bptIn : string;
    slippageBsp : JsNumber.t;
    amountsOut : list AmountOut.t }.

(** [AmountsOut]: output token address to normalized amount *)
Abbreviation AmountsOut := (gmap string string).

(** [Number text]: the floating-point number that JavaScript's
    [Number(text)] converts the string [text] to.  The conversion is kept
    symbolic: two values of this type are equal when they convert the same
    string, which is finer than the equality of the numbers. *)
Inductive Double : Type := Number (text : string).

Module QueryOutput.
Record t : Type :=
  { amountsOut : AmountsOut;
    priceImpact : Double;
    txReady : bool }.
End QueryOutput.

(** the value [buildExitExactBPTIn] returns *)
Record ExitPoolRequest : Type := { assets : list string }.
Record ExitPoolAttributes : Type := { exitPoolRequest : ExitPoolRequest }.
Record ExitExactInResponse : Type :=
  { to : string;
    data : string;
    attributes : ExitPoolAttributes;
    expectedAmountsOut : list string }.

Record TransactionResponse : Type := { hash : string }.

(** the SDK pool object that the registry hands out *)
Record PoolWithMethods : Type :=
  { buildExitExactBPTIn :
      string -> string -> string -> bool -> option string ->
      Result ExitExactInResponse;
    calcPriceImpact : list string -> string -> bool -> Result string }.

(** the collaborators reached through module-level dependencies: the pool
    registry of [getBalancerSDK()] and the raw transaction service of
    [TransactionBuilder] *)
Record Env : Type :=
  { pools_find : string -> Result (option PoolWithMethods);
    sendTransaction : Signer.t -> string -> string -> Result TransactionResponse }.

(** calls that leave the handler, in the order they are made *)
Inductive Event : Type :=
| SignerGetAddress
| PoolsFind (id : string)
| BuildExitExactBPTIn
    (exiter evmBptIn slippage : string) (shouldUnwrapNativeAsset : bool)
    (singleTokenMaxOutAddress : option string)
| CalcPriceImpact (amounts : list string) (evmBptIn : string) (isJoin : bool)
| CaptureBalancerException (error : Error)
| SendTransaction (to data : string).

(** the handler instance: the pool it was constructed for and the private
    [lastExitRes] field *)
Record ExactInExitHandler : Type :=
  { pool : Pool.t;
    lastExitRes : option ExitExactInResponse }.

(** ** Handler computations

    A method runs on the instance, may assign [lastExitRes], records the
    calls it makes and either returns or throws; what it assigned and
    called before a throw stays. *)

Definition M (A : Type) : Type :=
  ExactInExitHandler -> Result A * ExactInExitHandler * list Event.

Definition ret {A : Type} (a : A) : M A := fun this => (Ok a, this, []).

Definition throw {A : Type} (e : Error) : M A := fun this => (Throw e, this, []).

Definition bind {A B : Type} (m : M A) (k : A -> M B) : M B :=
  fun this =>
    match m this with
    | (Ok a, this', evs) =>
        match k a this' with
        | (r, this'', evs') => (r, this'', evs ++ evs')
        end
    | (Throw e, this', evs) => (Throw e, this', evs)
    end.

Definition liftR {A : Type} (r : Result A) : M A := fun this => (r, this, []).

(** a call to a collaborator: the call is recorded, then it returns or
    throws *)
Definition call {A : Type} (ev : Event) (r : Result A) : M A :=
  fun this => (r, this, [ev]).

Definition getThis : M ExactInExitHandler := fun this => (Ok this, this, []).

Definition assignLastExitRes (res : ExitExactInResponse) : M unit :=
  fun this => (Ok tt, {| pool := pool this; lastExitRes := Some res |}, []).

(** [try { body } catch (error) { handler }] *)
Definition tryCatch {A : Type} (body : M A) (handler : Error -> M A) : M A :=
  fun this =>
    match body this with
    | (Ok a, this', evs) => (Ok a, this', evs)
    | (Throw e, this', evs) =>
        match handler e this' with
        | (r, this'', evs') => (r, this'', evs ++ evs')
        end
    end.

Declare Scope handler_scope.
Delimit Scope handler_scope with M.
Notation "'let!' x ':=' m 'in' k" :=
  (bind m (fun x => k))
  (at level 10, x name, m at level 100, k at level 200,
   format "'[v' 'let!'  x  ':='  m  'in' '/' k ']'") : handler_scope.
Local Open Scope handler_scope.

(** [captureBalancerException], tagged with the dependency 'Balancer SDK' *)
Definition captureBalancerException {A : Type} (error : Error) (a : A) : M A :=
  fun this => (Ok a, this, [CaptureBalancerException error]).

(** ** The handler *)

Section Handler.

(** [NATIVE_ASSET_ADDRESS] of [@/constants/tokens] *)
Variable NATIVE_ASSET_ADDRESS : string.

(** [flatTokenTree] of [@/composables/usePoolHelpers]: the tokens of a
    pool, nested pools flattened *)
Variable flatTokenTree : Pool.t -> list PoolToken.t.

(** *** Address helpers of [@/lib/utils] *)

(** [Array.prototype.find], [filter] and [map] with a callback that may
    throw *)
Fixpoint findR {A : Type} (p : A -> Result bool) (l : list A)
  : Result (option A) :=
  match l with
  | [] => Ok None
  | a :: rest =>
      let? hit := p a in
      if hit then Ok (Some a) else findR p rest
  end.

Fixpoint filterR {A : Type} (p : A -> Result bool) (l : list A)
  : Result (list A) :=
  match l with
  | [] => Ok []
  | a :: rest =>
      let? keep := p a in
      let? rest' := filterR p rest in
      Ok (if keep then a :: rest' else rest')
  end.

Fixpoint mapR {A B : Type} (f : A -> Result B) (l : list A)
  : Result (list B) :=
  match l with
  | [] => Ok []
  | a :: rest =>
      let? b := f a in
      let? rest' := mapR f rest in
      Ok (b :: rest')
  end.

(** [Array.prototype.indexOf]; [None] stands for -1 *)
Fixpoint indexOf (l : list string) (x : string) : option nat :=
  match l with
  | [] => None
  | a :: rest =>
      if String.eqb a x then Some O else S <$> indexOf rest x
  end.

(** Modelled from the spec: [isSameAddress] of [@/lib/utils] is not under
    src/.  Two addresses are the same when their canonical checksummed
    forms are equal; an empty address is the same as nothing. *)
Definition isSameAddress (address1 address2 : string) : Result bool :=
  if String.eqb address1 "" || String.eqb address2 "" then Ok false
  else
    let? a1 := Ethers.getAddress address1 in
    let? a2 := Ethers.getAddress address2 in
    Ok (String.eqb a1 a2).

(** Modelled from the spec: [removeAddress] of [@/lib/utils] is not under
    src/.  It keeps the addresses that are not the same as [address]. *)
Definition removeAddress (address : string) (addresses : list string)
  : Result (list string) :=
  filterR (fun a => let? same := isSameAddress a address in Ok (negb same))
          addresses.

(** Modelled from the spec: [indexOfAddress] of [@/lib/utils] is not under
    src/.  The position of [address] among [addresses], compared in
    canonical checksummed form. *)
Definition indexOfAddress (addresses : list string) (address : string)
  : Result (option nat) :=
  if String.eqb address "" then Ok None
  else
    let? canonical :=
      mapR (fun a => if String.eqb a "" then Ok ""%string
                     else Ethers.getAddress a) addresses in
    let? target := Ethers.getAddress address in
    Ok (indexOf canonical target).

(** the value stored under a key of the object *)
Fixpoint lookupKey {A : Type} (m : list (string * A)) (key : string)
  : option A :=
  match m with
  | [] => None
  | (k, v) :: rest => if String.eqb k key then Some v else lookupKey rest key
  end.

(** Modelled from the spec: [selectByAddress] of [@/lib/utils] is not
    under src/.  It locates the entry of the token map whose key is the
    same address as [address], and gives nothing when there is none. *)
Definition selectByAddress {A : Type} (m : list (string * A))
    (address : string) : Result (option A) :=
  let? foundAddress :=
    findR (fun itemAddress => isSameAddress itemAddress address)
          (map fst m) in
  match foundAddress with
  | Some key => Ok (lookupKey m key)
  | None => Ok None
  end.

(** [AddressZero] *)
Definition ZeroAddress : string :=
  "0x0000000000000000000000000000000000000000".

(** Modelled from the spec: [formatAddressForSor] of [@/lib/utils] is not
    under src/.  The chain's native asset is passed to the SDK as the
    zero address, any other address as it is. *)
Definition formatAddressForSor (address : string) : Result string :=
  let? native := isSameAddress address NATIVE_ASSET_ADDRESS in
  Ok (if native then ZeroAddress else address).

(** *** Private methods *)

Definition getSingleAmountOut (amountsOut : list string)
    (tokenOutIndex : option nat) (tokenOut : TokenInfo.t)
  : Result AmountsOut :=
  let amountOut := tokenOutIndex ≫= fun i => amountsOut !! i in
  let? normalizedAmountOut :=
    match amountOut with
    | Some amountOut => Ethers.formatFixed amountOut (TokenInfo.decimals tokenOut)
    | None =>
        (* formatFixed(undefined, decimals) *)
        let? multiplier := Ethers.getMultiplier (TokenInfo.decimals tokenOut) in
        Throw (ArgumentError "invalid BigNumber value")
    end in
  Ok {[ TokenInfo.address tokenOut := normalizedAmountOut ]}.

(** the body of [expectedAmountsOut.forEach((amount, i) => ...)], from
    index [i] on *)
Fixpoint getAmountsOut_forEach (allPoolTokens : list PoolToken.t)
    (tokensOut : list string) (i : nat) (expected : list string)
    (amountsOut : AmountsOut) : Result AmountsOut :=
  match expected with
  | [] => Ok amountsOut
  | amount :: rest =>
      let? token :=
        match tokensOut !! i with
        | Some tokenOut =>
            findR (fun poolToken =>
                     isSameAddress (PoolToken.address poolToken) tokenOut)
                  allPoolTokens
        | None => Ok None
        end in
      match token with
      | Some token =>
          let? realAddress := Ethers.getAddress (PoolToken.address token) in
          let? scaledAmount :=
            Ethers.formatFixed amount (default 18%nat (PoolToken.decimals token)) in
          getAmountsOut_forEach allPoolTokens tokensOut (S i) rest
            (<[realAddress := scaledAmount]> amountsOut)
      | None =>
          getAmountsOut_forEach allPoolTokens tokensOut (S i) rest amountsOut
      end
  end.

Definition getAmountsOut (expectedAmountsOut tokensOut : list string)
  : M AmountsOut :=
  let! this := getThis in
  let allPoolTokens := flatTokenTree (pool this) in
  liftR (getAmountsOut_forEach allPoolTokens tokensOut 0 expectedAmountsOut ∅).

(** the handle stays undefined when [pools.find] throws *)
Definition getSdkPool (env : Env) : M (option PoolWithMethods) :=
  tryCatch
    (let! this := getThis in
     call (PoolsFind (Pool.id (pool this)))
          (pools_find env (Pool.id (pool this))))
    (fun error => captureBalancerException error None).

(** [this.lastExitRes] is assigned inside the [try] block, once the
    builder has returned, and nowhere else *)
Definition setLastExitRes (sdkPool : PoolWithMethods)
    (evmBptIn exiter slippage : string) (shouldUnwrapNativeAsset : bool)
    (singleTokenMaxOutAddress : option string) : M unit :=
  tryCatch
    (let single := Ethers.toLowerCase <$> singleTokenMaxOutAddress in
     let! res :=
       call (BuildExitExactBPTIn exiter evmBptIn slippage
               shouldUnwrapNativeAsset single)
            (buildExitExactBPTIn sdkPool exiter evmBptIn slippage
               shouldUnwrapNativeAsset single) in
     assignLastExitRes res)
    (fun error => captureBalancerException error tt).

Definition getEvmPriceImpact (sdkPool : PoolWithMethods)
    (expectedAmountsOut : list string) (evmBptIn : string)
  : M (option string) :=
  tryCatch
    (let! evmPriceImpact :=
       call (CalcPriceImpact expectedAmountsOut evmBptIn false)
            (calcPriceImpact sdkPool expectedAmountsOut evmBptIn false) in
     ret (Some evmPriceImpact))
    (fun error => captureBalancerException error None).

(** *** queryExit *)

Definition queryExit (env : Env) (params : ExitParams) : M QueryOutput.t :=
  let! exiter := call SignerGetAddress (Signer.getAddress (signer params)) in
  let slippage := JsNumber.toString (slippageBsp params) in
  let! sdkPool := getSdkPool env in
  match sdkPool with
  | None =>
      let! this := getThis in
      throw (FailedToFindPool (Pool.id (pool this)))
  | Some sdkPool =>
      (* amountsOut[0].address *)
      let! first :=
        liftR (match amountsOut params with
               | first :: _ => Ok first
               | [] => Throw (TypeError "amountsOut[0] is undefined")
               end) in
      let! tokenOut :=
        liftR (selectByAddress (tokenInfo params) (AmountOut.address first)) in
      match tokenOut with
      | None =>
          throw (CouldNotFindExitToken (AmountOut.address first)
                                       (map fst (tokenInfo params)))
      | Some tokenOut =>
          let isSingleTokenExit :=
            (List.length (amountsOut params) =? 1)%nat in
          let! parsedBptIn := liftR (Ethers.parseFixed (bptIn params) 18) in
          let evmBptIn := Ethers.toString parsedBptIn in
          let! tokenOutAddressForSor :=
            liftR (formatAddressForSor (TokenInfo.address tokenOut)) in
          let singleTokenMaxOutAddress :=
            if isSingleTokenExit then Some tokenOutAddressForSor else None in
          let! shouldUnwrapNativeAsset :=
            liftR (isSameAddress (TokenInfo.address tokenOut)
                                 NATIVE_ASSET_ADDRESS) in
          let! _ :=
            setLastExitRes sdkPool evmBptIn exiter slippage
              shouldUnwrapNativeAsset singleTokenMaxOutAddress in
          let! this := getThis in
          match lastExitRes this with
          | None => throw FailedToConstructExit
          | Some res =>
              let! tokensOut :=
                liftR (removeAddress (Pool.address (pool this))
                         (assets (exitPoolRequest (attributes res)))) in
              let expectedAmountsOut := expectedAmountsOut res in
              let! evmPriceImpact :=
                getEvmPriceImpact sdkPool expectedAmountsOut evmBptIn in
              match evmPriceImpact with
              | None | Some EmptyString =>
                  (* undefined and the empty string are falsy *)
                  throw FailedToCalculatePriceImpact
              | Some evmPriceImpact =>
                  let! printedPriceImpact :=
                    liftR (Ethers.formatFixed evmPriceImpact 18) in
                  let priceImpact := Number printedPriceImpact in
                  if isSingleTokenExit then
                    let! tokenOutIndex :=
                      liftR (indexOfAddress tokensOut tokenOutAddressForSor) in
                    let! amountsOut :=
                      liftR (getSingleAmountOut expectedAmountsOut
                               tokenOutIndex tokenOut) in
                    ret {| QueryOutput.amountsOut := amountsOut;
                           QueryOutput.priceImpact := priceImpact;
                           QueryOutput.txReady := true |}
                  else
                    let! amountsOut :=
                      getAmountsOut expectedAmountsOut tokensOut in
                    ret {| QueryOutput.amountsOut := amountsOut;
                           QueryOutput.priceImpact := priceImpact;
                           QueryOutput.txReady := true |}
              end
          end
      end
  end.

(** *** exit *)

Definition exit (env : Env) (params : ExitParams) : M TransactionResponse :=
  let! _ := queryExit env params in
  let! this := getThis in
  match lastExitRes this with
  | None => throw FailedToConstructExit
  | Some res =>
      call (SendTransaction (to res) (data res))
           (sendTransaction env (signer params) (to res) (data res))
  end.

End Handler.

(** ** Decidable equality of results, instances and call records

    Equalities between closed runs are decided by evaluation. *)

#[global] Instance Error_eq_dec : EqDecision Error.
Proof. solve_decision. Defined.

#[global] Instance Result_eq_dec {A : Type} `{EqDecision A} :
  EqDecision (Result A).
Proof. solve_decision. Defined.

#[global] Instance TokenInfo_eq_dec : EqDecision TokenInfo.t.
Proof. solve_decision. Defined.

#[global] Instance PoolToken_eq_dec : EqDecision PoolToken.t.
Proof. solve_decision. Defined.

#[global] Instance Pool_eq_dec : EqDecision Pool.t.
Proof. solve_decision. Defined.

#[global] Instance Double_eq_dec : EqDecision Double.
Proof. solve_decision. Defined.

#[global] Instance QueryOutput_eq_dec : EqDecision QueryOutput.t.
Proof. solve_decision. Defined.

#[global] Instance ExitPoolRequest_eq_dec : EqDecision ExitPoolRequest.
Proof. solve_decision. Defined.

#[global] Instance ExitPoolAttributes_eq_dec : EqDecision ExitPoolAttributes.
Proof. solve_decision. Defined.

#[global] Instance ExitExactInResponse_eq_dec : EqDecision ExitExactInResponse.
Proof. solve_decision. Defined.

#[global] Instance TransactionResponse_eq_dec : EqDecision TransactionResponse.
Proof. solve_decision. Defined.

#[global] Instance Event_eq_dec : EqDecision Event.
Proof. solve_decision. Defined.

#[global] Instance ExactInExitHandler_eq_dec : EqDecision ExactInExitHandler.
Proof. solve_decision. Defined.

(** ** What a call may record *)

Definition isBuildExitExactBPTIn (ev : Event) : bool :=
  match ev with
  | BuildExitExactBPTIn _ _ _ _ _ => true
  | _ => false
  end.

Definition isSendTransaction (ev : Event) : bool :=
  match ev with
  | SendTransaction _ _ => true
  | _ => false
  end.

Definition isArgumentError (e : Error) : bool :=
  match e with
  | ArgumentError _ => true
  | _ => false
  end.

(** a library call that throws nothing but the ethers argument errors *)
Definition throwsArgumentErrors {A : Type} (r : Result A) : Prop :=
  forall e, r = Throw e -> isArgumentError e = true.

(** the set of the canonical checksummed forms of a list of addresses *)
Definition addressSet (addresses : list string) : Result (gset string) :=
  let? canonical := mapR Ethers.getAddress addresses in
  Ok (list_to_set canonical).

(** the same parameters with another list of requested outputs *)
Definition withAmountsOut (params : ExitParams) (outs : list AmountOut.t)
  : ExitParams :=
  {| signer := signer params;
     tokenInfo := tokenInfo params;
     bptIn := bptIn params;
     slippageBsp := slippageBsp params;
     amountsOut := outs |}.

(** a token map whose every entry records the canonical checksummed form
    of the key it is stored under *)
Definition checksummedTokenMap (m : TokenInfoMap) : Prop :=
  Forall (fun kv => Ethers.getAddress (fst kv) = Ok (TokenInfo.address (snd kv))) m.

(** ** Concrete pools, parameters and collaborators

    A two-token weighted pool (USDC with 6 decimals, WETH with 18), its
    addresses in lower case as the pool data carries them, and token maps
    in the checksummed form of a token list. *)

Module Scenario.

Local Open Scope string_scope.

Definition NATIVE_ASSET_ADDRESS : string :=
  "0xEeeeeEeeeEeEeeEeEeEeeEEEeeeeEeeeeeeeEEeE".

Definition USDC : string := "0xA0b86991c6218b36c1d19D4a2e9Eb0cE3606eB48".
Definition WETH : string := "0xC02aaA39b223FE8D0A0e5C4F27eAD9083C756Cc2".
Definition usdc : string := "0xa0b86991c6218b36c1d19d4a2e9eb0ce3606eb48".
Definition weth : string := "0xc02aaa39b223fe8d0a0e5c4f27ead9083c756cc2".

Definition POOL_ADDRESS : string :=
  "0x96646936b91d6b9d7d0c47c496afbf3d6ec7b6f8".
Definition POOL_ID : string :=
  "0x96646936b91d6b9d7d0c47c496afbf3d6ec7b6f8000200000000000000000019".
Definition VAULT : string := "0xBA12222222228d8Ba445958a75a0704d566BF2C8".
Definition EXITER : string := "0x1111111111111111111111111111111111111111".

Definition thePool : Pool.t :=
  {| Pool.id := POOL_ID;
     Pool.address := POOL_ADDRESS;
     Pool.tokens :=
       [ {| PoolToken.address := usdc; PoolToken.decimals := Some 6%nat |};
         {| PoolToken.address := weth; PoolToken.decimals := Some 18%nat |} ] |}.

(** the pool has no nested pools: its token tree is its token list *)
Definition flatTokenTree (p : Pool.t) : list PoolToken.t := Pool.tokens p.

Definition fresh : ExactInExitHandler :=
  {| pool := thePool; lastExitRes := None |}.

(** the exit that the SDK builds: the wrapped native asset is reported
    as the zero address when it is to be unwrapped *)
Definition response (callData : string) (unwrap : bool) (amounts : list string)
  : ExitExactInResponse :=
  {| to := VAULT;
     data := callData;
     attributes :=
       {| exitPoolRequest :=
            {| assets := [usdc; if unwrap then ZeroAddress else weth] |} |};
     expectedAmountsOut := amounts |}.

Definition sdkPool : PoolWithMethods :=
  {| buildExitExactBPTIn :=
       fun exiter evmBptIn slippage unwrap single =>
         Ok (response ("0x8bdb3913" ++ evmBptIn) unwrap
               (match single with
                | Some _ => ["5000000"; "0"]
                | None => ["2500000"; "1000000000000000"]
                end));
     calcPriceImpact := fun _ _ _ => Ok "1000000000000000" |}.

Definition failingSdkPool : PoolWithMethods :=
  {| buildExitExactBPTIn :=
       fun _ _ _ _ _ => Throw (Rejected "BAL#302");
     calcPriceImpact := fun _ _ _ => Ok "1000000000000000" |}.

Definition send (s : Signer.t) (to data : string) : Result TransactionResponse :=
  Ok {| hash := "0x01" |}.

Definition env_ok : Env :=
  {| pools_find := fun _ => Ok (Some sdkPool); sendTransaction := send |}.
Definition env_no_pool : Env :=
  {| pools_find := fun _ => Ok None; sendTransaction := send |}.
Definition env_find_throws : Env :=
  {| pools_find := fun _ => Throw (Rejected "network error");
     sendTransaction := send |}.
Definition env_build_throws : Env :=
  {| pools_find := fun _ => Ok (Some failingSdkPool); sendTransaction := send |}.

Definition theSigner : Signer.t := {| Signer.getAddress := Ok EXITER |}.

Definition tokenList : TokenInfoMap :=
  [ (USDC, {| TokenInfo.address := USDC; TokenInfo.decimals := 6 |});
    (WETH, {| TokenInfo.address := WETH; TokenInfo.decimals := 18 |});
    (NATIVE_ASSET_ADDRESS,
     {| TokenInfo.address := NATIVE_ASSET_ADDRESS; TokenInfo.decimals := 18 |}) ].

(** a token map kept in lower case *)
Definition lowerCaseTokenList : TokenInfoMap :=
  [ (usdc, {| TokenInfo.address := usdc; TokenInfo.decimals := 6 |}) ].

Definition request (address : string) : AmountOut.t :=
  {| AmountOut.address := address; AmountOut.value := "0" |}.

Definition exitParams (tokens : TokenInfoMap) (amount : string)
    (outs : list string) : ExitParams :=
  {| signer := theSigner;
     tokenInfo := tokens;
     bptIn := amount;
     slippageBsp := {| JsNumber.toString := "50" |};
     amountsOut := map request outs |}.

Definition built (amount : string) (unwrap : bool) (amounts : list string)
  : ExactInExitHandler :=
  {| pool := thePool;
     lastExitRes := Some (response ("0x8bdb3913" ++ amount) unwrap amounts) |}.

Definition output (amounts : AmountsOut) : QueryOutput.t :=
  {| QueryOutput.amountsOut := amounts; QueryOutput.priceImpact := Number "0.001";
     QueryOutput.txReady := true |}.

End Scenario.

(** ** Decimal strings as numbers *)

(** The round trip of the BPT amount is measured against the number that
    a decimal string denotes and against the form in which a number is
    written back.  Neither is part of the program: they are the reading
    of "the original value" that the conversions are compared with. *)
Module Decimal.

(** Reading the characters from left to right: a digit multiplies the
    number read so far by ten and adds itself, and counts as a digit of
    the fraction once the point has been passed.  The result
    [(numerator, fractionDigits)] stands for
    numerator / 10 ^ fractionDigits. *)
Fixpoint read (cs : list ascii) (afterPoint : bool)
    (numerator : Z) (fractionDigits : nat) : option (Z * nat) :=
  match cs with
  | [] => Some (numerator, fractionDigits)
  | c :: rest =>
      if Ethers.isDigit c then
        read rest afterPoint (10 * numerator + Ethers.digit_value c)
          (if afterPoint then S fractionDigits else fractionDigits)
      else if (c =? ".")%char && negb afterPoint then
        read rest true numerator fractionDigits
      else None
  end.

(** the rational number that a decimal string denotes: an optional minus
    sign, digits, and at most one point among them *)
Definition value (text : string) : option Q :=
  let cs := list_ascii_of_string text in
  let negative := Ethers.startsWith "-" cs in
  let body := if negative then tl cs else cs in
  match read body false 0 0 with
  | Some (numerator, fractionDigits) =>
      Some (Qmake (if negative then - numerator else numerator)
                  (Z.to_pos (10 ^ Z.of_nat fractionDigits)))
  | None => None
  end.

(** a body of digits with a minus sign before it, or without *)
Definition signed (negative : bool) (body : list ascii) : list ascii :=
  (if negative then ["-"%char] else []) ++ body.

(** the digits at the head of a string, and what follows them *)
Fixpoint spanDigits (cs : list ascii) : list ascii * list ascii :=
  match cs with
  | [] => ([], [])
  | c :: rest =>
      if Ethers.isDigit c
      then let (digits, tail) := spanDigits rest in (c :: digits, tail)
      else ([], cs)
  end.

(** a single digit, or digits that do not start with a zero *)
Definition noLeadingZero (digits : list ascii) : bool :=
  match digits with
  | [] => false
  | [_] => true
  | c :: _ => negb (c =? "0")%char
  end.

(** The canonical way of writing a number with at most [decimals]
    fractional digits: an optional minus sign, a whole part without
    leading zeros, a point, and a fraction of one digit at least and
    without final zeros (a whole part or a fraction that is zero is
    written as the single digit 0); zero carries no minus sign. *)
Definition isCanonical (decimals : nat) (text : string) : bool :=
  let cs := list_ascii_of_string text in
  let negative := Ethers.startsWith "-" cs in
  let body := if negative then tl cs else cs in
  let (whole, rest) := spanDigits body in
  match rest with
  | "."%char :: fraction =>
      forallb Ethers.isDigit fraction
      && (List.length fraction <=? decimals)%nat
      && noLeadingZero whole
      && noLeadingZero (rev fraction)
      && negb (negative && Ethers.eqb_chars whole ["0"%char]
               && Ethers.eqb_chars fraction ["0"%char])
  | _ => false
  end.

End Decimal.


(** ** Kinds of calls

    The collaborators a call goes to; the exception sink is kept apart
    from the others. *)

Inductive CallKind : Type :=
| ToSigner
| ToRegistry
| ToBuilder
| ToPriceImpact
| ToSink
| ToTransactionService.

Definition kindOf (ev : Event) : CallKind :=
  match ev with
  | SignerGetAddress => ToSigner
  | PoolsFind _ => ToRegistry
  | BuildExitExactBPTIn _ _ _ _ _ => ToBuilder
  | CalcPriceImpact _ _ _ => ToPriceImpact
  | CaptureBalancerException _ => ToSink
  | SendTransaction _ _ => ToTransactionService
  end.

Definition isCaptureBalancerException (ev : Event) : bool :=
  match ev with
  | CaptureBalancerException _ => true
  | _ => false
  end.

(** the calls of a run, the reports to the exception sink left out *)
Definition collaboratorCalls (evs : list Event) : list CallKind :=
  map kindOf (List.filter (fun ev => negb (isCaptureBalancerException ev)) evs).

(** ** Further collaborators and instances *)

Module ExtraScenario.

Local Open Scope string_scope.

(** an SDK pool that builds exits but cannot compute the price impact *)
Definition priceImpactFailingSdkPool : PoolWithMethods :=
  {| buildExitExactBPTIn := buildExitExactBPTIn Scenario.sdkPool;
     calcPriceImpact := fun _ _ _ => Throw (Rejected "BAL#004") |}.

Definition env_price_impact_throws : Env :=
  {| pools_find := fun _ => Ok (Some priceImpactFailingSdkPool);
     sendTransaction := Scenario.send |}.

(** an instance that holds the result of an earlier query for 9.0 BPT *)
Definition pending : ExactInExitHandler :=
  Scenario.built "9000000000000000000" false ["4500000"; "0"].

(** a requested output with an amount filled in *)
Definition filled (address amount : string) : AmountOut.t :=
  {| AmountOut.address := address; AmountOut.value := amount |}.

End ExtraScenario.

(** * Properties *)

(** ** Proof machinery for handler computations *)

(** unfold a method down to the results of the calls it makes *)
Ltac unfold_handler H :=
  cbv beta iota zeta delta
    [queryExit exit bind ret throw liftR call getThis assignLastExitRes
     tryCatch captureBalancerException getSdkPool setLastExitRes
     getEvmPriceImpact getAmountsOut] in H.

(** case analysis on the innermost result that a run still waits for *)
Ltac step H :=
  match type of H with
  | context [match ?x with _ => _ end] =>
      lazymatch x with
      | context [match _ with _ => _ end] => fail
      | _ => destruct x eqn:?
      end
  end; cbv beta iota zeta in H.

Ltac project_fields :=
  cbn [pool lastExitRes QueryOutput.amountsOut QueryOutput.priceImpact
       QueryOutput.txReady] in *.

Ltac run_handler H :=
  unfold_handler H; repeat step H; project_fields; simplify_eq.

(** ** The private methods, as equations *)

Section Methods.

Variable NATIVE_ASSET_ADDRESS : string.
Variable flatTokenTree : Pool.t -> list PoolToken.t.

Lemma getSdkPool_returns env this handle :
  pools_find env (Pool.id (pool this)) = Ok handle ->
  getSdkPool env this = (Ok handle, this, [PoolsFind (Pool.id (pool this))]).
Proof. intros H. unfold getSdkPool, tryCatch, bind, getThis, call. now rewrite H. Qed.

Lemma getSdkPool_throws env this error :
  pools_find env (Pool.id (pool this)) = Throw error ->
  getSdkPool env this =
  (Ok None, this,
   [PoolsFind (Pool.id (pool this)); CaptureBalancerException error]).
Proof. intros H. unfold getSdkPool, tryCatch, bind, getThis, call. now rewrite H. Qed.

Lemma setLastExitRes_returns sdkPool evmBptIn exiter slippage unwrap single this res :
  buildExitExactBPTIn sdkPool exiter evmBptIn slippage unwrap
    (Ethers.toLowerCase <$> single) = Ok res ->
  setLastExitRes sdkPool evmBptIn exiter slippage unwrap single this =
  (Ok tt, {| pool := pool this; lastExitRes := Some res |},
   [BuildExitExactBPTIn exiter evmBptIn slippage unwrap
      (Ethers.toLowerCase <$> single)]).
Proof.
  intros H. unfold setLastExitRes, tryCatch, bind, call, assignLastExitRes.
  now rewrite H.
Qed.

(** when the builder throws, the error is captured and the field keeps
    whatever it held before the call *)
Lemma setLastExitRes_throws sdkPool evmBptIn exiter slippage unwrap single this error :
  buildExitExactBPTIn sdkPool exiter evmBptIn slippage unwrap
    (Ethers.toLowerCase <$> single) = Throw error ->
  setLastExitRes sdkPool evmBptIn exiter slippage unwrap single this =
  (Ok tt, this,
   [BuildExitExactBPTIn exiter evmBptIn slippage unwrap
      (Ethers.toLowerCase <$> single);
    CaptureBalancerException error]).
Proof.
  intros H. unfold setLastExitRes, tryCatch, bind, call, assignLastExitRes.
  now rewrite H.
Qed.

(** the handler never replaces its pool, and only [exit] reaches the
    transaction service *)
Lemma queryExit_frame env params this r this' evs :
  queryExit NATIVE_ASSET_ADDRESS flatTokenTree env params this = (r, this', evs) ->
  pool this' = pool this /\
  forallb (fun ev => negb (isSendTransaction ev)) evs = true.
Proof. intros H. run_handler H; split; reflexivity. Qed.

(** once the field holds a result, no query empties it again, whatever
    the builder does *)
Lemma queryExit_never_clears_pending_result env params this r this' evs :
  queryExit NATIVE_ASSET_ADDRESS flatTokenTree env params this = (r, this', evs) ->
  is_Some (lastExitRes this) -> is_Some (lastExitRes this').
Proof.
  intros H [res Hres]. run_handler H; eauto.
Qed.

(** everything a returning [queryExit] went through *)
Lemma queryExit_returns env params this out this' evs :
  queryExit NATIVE_ASSET_ADDRESS flatTokenTree env params this = (Ok out, this', evs) ->
  exists exiter sdkPool first rest tokenOut parsed sor unwrap res tokensOut impact,
    Signer.getAddress (signer params) = Ok exiter /\
    pools_find env (Pool.id (pool this)) = Ok (Some sdkPool) /\
    amountsOut params = first :: rest /\
    selectByAddress (tokenInfo params) (AmountOut.address first)
    = Ok (Some tokenOut) /\
    Ethers.parseFixed (bptIn params) 18 = Ok parsed /\
    formatAddressForSor NATIVE_ASSET_ADDRESS (TokenInfo.address tokenOut) = Ok sor /\
    isSameAddress (TokenInfo.address tokenOut) NATIVE_ASSET_ADDRESS = Ok unwrap /\
    lastExitRes this' = Some res /\
    removeAddress (Pool.address (pool this))
      (assets (exitPoolRequest (attributes res))) = Ok tokensOut /\
    calcPriceImpact sdkPool (expectedAmountsOut res) (Ethers.toString parsed) false
    = Ok impact /\
    (exists printed, Ethers.formatFixed impact 18 = Ok printed /\
       QueryOutput.priceImpact out = Number printed) /\
    QueryOutput.txReady out = true /\
    if (List.length (amountsOut params) =? 1)%nat
    then exists tokenOutIndex,
        indexOfAddress tokensOut sor = Ok tokenOutIndex /\
        getSingleAmountOut (expectedAmountsOut res) tokenOutIndex tokenOut
        = Ok (QueryOutput.amountsOut out)
    else getAmountsOut_forEach (flatTokenTree (pool this)) tokensOut 0
           (expectedAmountsOut res) ∅ = Ok (QueryOutput.amountsOut out).
Proof.
  intros H. unfold_handler H.
  destruct (amountsOut params) as [|first rest] eqn:Hout.
  - repeat step H; simplify_eq.
  - repeat step H; project_fields; simplify_eq;
      repeat eexists; try eassumption; try reflexivity;
      match goal with
      | E : (_ =? 1)%nat = _ |- _ => rewrite E
      end; eauto.
Qed.

End Methods.

(** ** Failed builds and the pending result *)

Section PendingResult.

Import Scenario.

(** A build that throws on an instance that holds nothing leaves it
    holding nothing, and the query fails with the construction error. *)
Lemma failed_build_on_fresh_instance :
  queryExit NATIVE_ASSET_ADDRESS flatTokenTree env_build_throws
    (exitParams tokenList "20.0" [USDC]) fresh
  = (Throw FailedToConstructExit, fresh,
     [ SignerGetAddress; PoolsFind POOL_ID;
       BuildExitExactBPTIn EXITER "20000000000000000000" "50" false (Some usdc);
       CaptureBalancerException (Rejected "BAL#302") ]).
Proof. compute_done. Qed.

(** C1, at a failing input.  A first query for 10.0 BPT succeeds and
    leaves its result in [lastExitRes].  A second query on the same
    instance, for 20.0 BPT, in which buildExitExactBPTIn throws, leaves
    that earlier result in place: the query returns the stale amounts
    and a following [exit] submits the transaction that was built for
    10.0 BPT. *)
Theorem C1_failed_build_keeps_stale_result :
  let stale := built "10000000000000000000" false ["5000000"; "0"] in
  let second_call :=
    [ SignerGetAddress; PoolsFind POOL_ID;
      BuildExitExactBPTIn EXITER "20000000000000000000" "50" false (Some usdc);
      CaptureBalancerException (Rejected "BAL#302");
      CalcPriceImpact ["5000000"; "0"] "20000000000000000000" false ] in
  queryExit NATIVE_ASSET_ADDRESS flatTokenTree env_ok
    (exitParams tokenList "10.0" [USDC]) fresh
  = (Ok (output {[ USDC := "5.0" ]}), stale,
     [ SignerGetAddress; PoolsFind POOL_ID;
       BuildExitExactBPTIn EXITER "10000000000000000000" "50" false (Some usdc);
       CalcPriceImpact ["5000000"; "0"] "10000000000000000000" false ])
  /\ queryExit NATIVE_ASSET_ADDRESS flatTokenTree env_build_throws
       (exitParams tokenList "20.0" [USDC]) stale
     = (Ok (output {[ USDC := "5.0" ]}), stale, second_call)
  /\ lastExitRes stale
     = Some (response "0x8bdb391310000000000000000000" false ["5000000"; "0"])
  /\ exit NATIVE_ASSET_ADDRESS flatTokenTree env_build_throws
       (exitParams tokenList "20.0" [USDC]) stale
     = (Ok {| hash := "0x01" |}, stale,
        second_call ++ [SendTransaction VAULT "0x8bdb391310000000000000000000"]).
Proof. cbv zeta. repeat apply conj; compute_done. Qed.

End PendingResult.

(** ** Pool resolution *)

(** C2: when the pool registry is asked for the handler's pool id and
    yields no handle, queryExit fails with the pool-not-found error, the
    transaction builder is not called during that call, and the instance
    is left as it was. *)
Theorem C2_no_pool_handle_fails_before_build :
  forall NATIVE ftt env params this r this' evs,
    queryExit NATIVE ftt env params this = (r, this', evs) ->
    In (PoolsFind (Pool.id (pool this))) evs ->
    pools_find env (Pool.id (pool this)) = Ok None ->
    r = Throw (FailedToFindPool (Pool.id (pool this))) /\
    forallb (fun ev => negb (isBuildExitExactBPTIn ev)) evs = true /\
    this' = this.
Proof.
  intros NATIVE ftt env params this r this' evs H Hasked Hnone.
  unfold_handler H. rewrite Hnone in H.
  destruct (Signer.getAddress (signer params)); cbv beta iota zeta in H;
    simplify_eq.
  - repeat split; reflexivity.
  - simpl in Hasked. destruct Hasked as [Hh|[]]. discriminate Hh.
Qed.

Lemma C2_witness :
  queryExit Scenario.NATIVE_ASSET_ADDRESS Scenario.flatTokenTree
    Scenario.env_no_pool
    (Scenario.exitParams Scenario.tokenList "10.0" [Scenario.USDC])
    Scenario.fresh
  = (Throw (FailedToFindPool Scenario.POOL_ID), Scenario.fresh,
     [SignerGetAddress; PoolsFind Scenario.POOL_ID])
  /\ Throw (A := QueryOutput.t) (FailedToFindPool Scenario.POOL_ID)
     = Throw (FailedToFindPool (Pool.id (pool Scenario.fresh))).
Proof.
  assert (E : queryExit Scenario.NATIVE_ASSET_ADDRESS Scenario.flatTokenTree
                Scenario.env_no_pool
                (Scenario.exitParams Scenario.tokenList "10.0" [Scenario.USDC])
                Scenario.fresh
              = (Throw (FailedToFindPool Scenario.POOL_ID), Scenario.fresh,
                 [SignerGetAddress; PoolsFind Scenario.POOL_ID])).
  { compute_done. }
  split; [exact E|].
  refine (proj1 (C2_no_pool_handle_fails_before_build _ _ _ _ _ _ _ _ E _ _)).
  - simpl. right. left. reflexivity.
  - reflexivity.
Defined.

(** C6, as stated, fails when pools.find throws: the error is captured,
    but what queryExit then throws is the pool-not-found error, not the
    generic construction error. *)
Lemma C6_counterexample :
  queryExit Scenario.NATIVE_ASSET_ADDRESS Scenario.flatTokenTree
    Scenario.env_find_throws
    (Scenario.exitParams Scenario.tokenList "10.0" [Scenario.USDC])
    Scenario.fresh
  = (Throw (FailedToFindPool Scenario.POOL_ID), Scenario.fresh,
     [ SignerGetAddress; PoolsFind Scenario.POOL_ID;
       CaptureBalancerException (Rejected "network error") ])
  /\ Throw (A := QueryOutput.t) (FailedToFindPool Scenario.POOL_ID)
     <> Throw FailedToConstructExit.
Proof. split; [compute_done | discriminate]. Qed.

(** C6, amended: when pools.find itself throws, the error is caught and
    reported to the observability sink, the pool handle is treated as
    unset, and queryExit fails right after the lookup with the
    pool-not-found error; the builder is not called and the instance is
    left as it was. *)
Theorem C6_find_throws_reported_as_pool_not_found :
  forall NATIVE ftt env params this r this' evs error,
    queryExit NATIVE ftt env params this = (r, this', evs) ->
    In (PoolsFind (Pool.id (pool this))) evs ->
    pools_find env (Pool.id (pool this)) = Throw error ->
    r = Throw (FailedToFindPool (Pool.id (pool this))) /\
    evs = [ SignerGetAddress; PoolsFind (Pool.id (pool this));
            CaptureBalancerException error ] /\
    this' = this.
Proof.
  intros NATIVE ftt env params this r this' evs error H Hasked Hthrows.
  unfold_handler H. rewrite Hthrows in H.
  destruct (Signer.getAddress (signer params)); cbv beta iota zeta in H;
    simplify_eq.
  - repeat split; reflexivity.
  - simpl in Hasked. destruct Hasked as [Hh|[]]. discriminate Hh.
Qed.

Lemma C6_witness :
  queryExit Scenario.NATIVE_ASSET_ADDRESS Scenario.flatTokenTree
    Scenario.env_find_throws
    (Scenario.exitParams Scenario.tokenList "10.0" [Scenario.USDC])
    Scenario.fresh
  = (Throw (FailedToFindPool Scenario.POOL_ID), Scenario.fresh,
     [ SignerGetAddress; PoolsFind Scenario.POOL_ID;
       CaptureBalancerException (Rejected "network error") ])
  /\ Throw (A := QueryOutput.t) (FailedToFindPool Scenario.POOL_ID)
     = Throw (FailedToFindPool (Pool.id (pool Scenario.fresh))).
Proof.
  assert (E : queryExit Scenario.NATIVE_ASSET_ADDRESS Scenario.flatTokenTree
                Scenario.env_find_throws
                (Scenario.exitParams Scenario.tokenList "10.0" [Scenario.USDC])
                Scenario.fresh
              = (Throw (FailedToFindPool Scenario.POOL_ID), Scenario.fresh,
                 [ SignerGetAddress; PoolsFind Scenario.POOL_ID;
                   CaptureBalancerException (Rejected "network error") ])).
  { compute_done. }
  split; [exact E|].
  refine (proj1 (C6_find_throws_reported_as_pool_not_found
                   _ _ _ _ _ _ _ _ (Rejected "network error") E _ _)).
  - simpl. right. left. reflexivity.
  - reflexivity.
Defined.

(** ** exit *)

(** C3, as stated, fails on a fresh instance whose pool the registry does
    not know: no pending result exists after the query that [exit]
    re-runs, and [exit] fails with the pool-not-found error that the query
    raised, not with the no-exit-constructed error. *)
Lemma C3_counterexample :
  let params := Scenario.exitParams Scenario.tokenList "10.0" [Scenario.USDC] in
  lastExitRes Scenario.fresh = None
  /\ queryExit Scenario.NATIVE_ASSET_ADDRESS Scenario.flatTokenTree
       Scenario.env_no_pool params Scenario.fresh
     = (Throw (FailedToFindPool Scenario.POOL_ID), Scenario.fresh,
        [SignerGetAddress; PoolsFind Scenario.POOL_ID])
  /\ exit Scenario.NATIVE_ASSET_ADDRESS Scenario.flatTokenTree
       Scenario.env_no_pool params Scenario.fresh
     = (Throw (FailedToFindPool Scenario.POOL_ID), Scenario.fresh,
        [SignerGetAddress; PoolsFind Scenario.POOL_ID])
  /\ Throw (A := TransactionResponse) (FailedToFindPool Scenario.POOL_ID)
     <> Throw FailedToConstructExit.
Proof.
  cbv zeta. repeat apply conj; compute_done.
Qed.

(** C3, amended: when no pending exit result exists after the query that
    [exit] re-runs, the query has thrown and [exit] fails with that same
    error, stopping where the query stopped, without calling the
    transaction-submission service; the error is the construction error
    ('Failed to construct exit.') whenever the query got as far as calling
    the transaction builder. *)
Theorem C3_exit_without_pending_result_fails :
  forall NATIVE ftt env params this rq thisq evsq,
    queryExit NATIVE ftt env params this = (rq, thisq, evsq) ->
    lastExitRes thisq = None ->
    exists e,
      rq = Throw e /\
      exit NATIVE ftt env params this = (Throw e, thisq, evsq) /\
      forallb (fun ev => negb (isSendTransaction ev)) evsq = true /\
      (existsb isBuildExitExactBPTIn evsq = true -> e = FailedToConstructExit).
Proof.
  intros NATIVE ftt env params this rq thisq evsq H Hnone.
  assert (Hexit : forall e, rq = Throw e ->
                            exit NATIVE ftt env params this = (Throw e, thisq, evsq)).
  { intros e ->. unfold exit, bind. now rewrite H. }
  destruct (queryExit_frame _ _ _ _ _ _ _ _ H) as [_ Hsend].
  destruct rq as [out|e].
  - destruct (queryExit_returns _ _ _ _ _ _ _ _ H)
      as (? & ? & ? & ? & ? & ? & ? & ? & res & ? & ? & _ & _ & _ & _ & _ & _ & _
          & Hres & _).
    congruence.
  - exists e. repeat split; auto.
    clear Hexit Hsend. intros Hbuilt.
    run_handler H; try discriminate Hbuilt; try reflexivity; congruence.
Qed.

Lemma C3_witness :
  exit Scenario.NATIVE_ASSET_ADDRESS Scenario.flatTokenTree
    Scenario.env_build_throws
    (Scenario.exitParams Scenario.tokenList "20.0" [Scenario.USDC])
    Scenario.fresh
  = (Throw FailedToConstructExit, Scenario.fresh,
     [ SignerGetAddress; PoolsFind Scenario.POOL_ID;
       BuildExitExactBPTIn Scenario.EXITER "20000000000000000000" "50" false
         (Some Scenario.usdc);
       CaptureBalancerException (Rejected "BAL#302") ]).
Proof.
  destruct (C3_exit_without_pending_result_fails _ _ _ _ _ _ _ _
              failed_build_on_fresh_instance eq_refl)
    as (e & He & Hexit & _ & Hbuild).
  injection He as <-. exact Hexit.
Defined.

(** ** What a returning query gives back *)

(** C8: BPT-in "10.0", a single output token with 6 decimals for which
    the SDK returns the raw amount 5000000: queryExit returns, and the
    amounts map holds "5.0" under that token's address (and nothing
    else). *)
Theorem C8_example_normalized_amount :
  let params := Scenario.exitParams Scenario.tokenList "10.0" [Scenario.USDC] in
  bptIn params = "10.0"%string
  /\ selectByAddress (tokenInfo params) Scenario.USDC
     = Ok (Some {| TokenInfo.address := Scenario.USDC; TokenInfo.decimals := 6 |})
  /\ exists out this' evs,
      queryExit Scenario.NATIVE_ASSET_ADDRESS Scenario.flatTokenTree
        Scenario.env_ok params Scenario.fresh = (Ok out, this', evs)
      /\ (expectedAmountsOut <$> lastExitRes this') = Some ["5000000"; "0"]%string
      /\ QueryOutput.amountsOut out !! Scenario.USDC = Some "5.0"%string
      /\ QueryOutput.amountsOut out = {[ Scenario.USDC := "5.0"%string ]}.
Proof.
  split; [reflexivity|]. split; [compute_done|].
  exists (Scenario.output {[ Scenario.USDC := "5.0"%string ]}),
         (Scenario.built "10000000000000000000" false ["5000000"; "0"]%string),
         [ SignerGetAddress; PoolsFind Scenario.POOL_ID;
           BuildExitExactBPTIn Scenario.EXITER "10000000000000000000" "50" false
             (Some Scenario.usdc);
           CalcPriceImpact ["5000000"; "0"]%string "10000000000000000000" false ].
  repeat apply conj; compute_done.
Qed.

(** C9: every QueryOutput that queryExit returns has txReady set to true,
    in the single-output branch and in the multi-output branch alike. *)
Theorem C9_returned_output_is_tx_ready :
  forall NATIVE ftt env params this out this' evs,
    queryExit NATIVE ftt env params this = (Ok out, this', evs) ->
    QueryOutput.txReady out = true.
Proof.
  intros NATIVE ftt env params this out this' evs H.
  destruct (queryExit_returns _ _ _ _ _ _ _ _ H)
    as (? & ? & ? & ? & ? & ? & ? & ? & ? & ? & ? & _ & _ & _ & _ & _ & _ & _
        & _ & _ & _ & _ & Hready & _).
  exact Hready.
Qed.

Lemma multi_output_query_ready :
  queryExit Scenario.NATIVE_ASSET_ADDRESS Scenario.flatTokenTree Scenario.env_ok
    (Scenario.exitParams Scenario.tokenList "10.0" [Scenario.USDC; Scenario.WETH])
    Scenario.fresh
  = (Ok (Scenario.output {[ Scenario.USDC := "2.5"%string;
                            Scenario.WETH := "0.001"%string ]}),
     Scenario.built "10000000000000000000" false
       ["2500000"; "1000000000000000"]%string,
     [ SignerGetAddress; PoolsFind Scenario.POOL_ID;
       BuildExitExactBPTIn Scenario.EXITER "10000000000000000000" "50" false None;
       CalcPriceImpact ["2500000"; "1000000000000000"]%string
         "10000000000000000000" false ]).
Proof. compute_done. Qed.

Lemma C9_witness :
  QueryOutput.txReady (Scenario.output {[ Scenario.USDC := "2.5"%string;
                              Scenario.WETH := "0.001"%string ]}) = true.
Proof.
  exact (C9_returned_output_is_tx_ready _ _ _ _ _ _ _ _
           multi_output_query_ready).
Defined.

(** ** Errors of the library calls

    The ethers utilities and the address helpers throw argument errors
    only, so none of them can be mistaken for an error of the handler. *)

Create HintDb throws.

Lemma throws_Ok {A : Type} (a : A) : throwsArgumentErrors (Ok a).
Proof. intros e H. discriminate H. Qed.

Lemma throws_ArgumentError {A : Type} msg :
  throwsArgumentErrors (A := A) (Throw (ArgumentError msg)).
Proof. intros e H. now injection H as <-. Qed.

Lemma throws_bindR {A B : Type} (r : Result A) (k : A -> Result B) :
  throwsArgumentErrors r -> (forall a, throwsArgumentErrors (k a)) ->
  throwsArgumentErrors (bindR r k).
Proof.
  intros Hr Hk e H. destruct r as [a|e']; simpl in H.
  - exact (Hk a e H).
  - apply Hr. now injection H as ->.
Qed.

#[local] Hint Resolve throws_Ok throws_ArgumentError : throws.

Ltac throws :=
  repeat first
    [ apply throws_Ok
    | apply throws_ArgumentError
    | apply throws_bindR; [|intros ?]
    | match goal with
      | |- throwsArgumentErrors (if ?c then _ else _) => destruct c
      | |- throwsArgumentErrors (match ?x with _ => _ end) => destruct x
      end
    | solve [eauto with throws] ].

Lemma throws_getAddress a : throwsArgumentErrors (Ethers.getAddress a).
Proof. unfold Ethers.getAddress. cbv zeta. throws. Qed.

Lemma throws_getMultiplier d : throwsArgumentErrors (Ethers.getMultiplier d).
Proof. unfold Ethers.getMultiplier. throws. Qed.

Lemma throws_from_chars cs : throwsArgumentErrors (Ethers.from_chars cs).
Proof. unfold Ethers.from_chars. cbv zeta. throws. Qed.

#[local] Hint Resolve throws_getAddress throws_getMultiplier
  throws_from_chars : throws.

Lemma throws_formatFixed v d : throwsArgumentErrors (Ethers.formatFixed v d).
Proof.
  unfold Ethers.formatFixed, Ethers.formatFixed_bn, Ethers.from. cbv zeta.
  throws.
Qed.

Lemma throws_parseFixed v d : throwsArgumentErrors (Ethers.parseFixed v d).
Proof. unfold Ethers.parseFixed. cbv zeta. throws. Qed.

Lemma throws_isSameAddress a b : throwsArgumentErrors (isSameAddress a b).
Proof. unfold isSameAddress. throws. Qed.

#[local] Hint Resolve throws_formatFixed throws_parseFixed
  throws_isSameAddress : throws.

Lemma throws_findR {A : Type} (p : A -> Result bool) l :
  (forall a, throwsArgumentErrors (p a)) -> throwsArgumentErrors (findR p l).
Proof. intros Hp. induction l as [|a l IH]; simpl; throws. Qed.

Lemma throws_filterR {A : Type} (p : A -> Result bool) l :
  (forall a, throwsArgumentErrors (p a)) -> throwsArgumentErrors (filterR p l).
Proof. intros Hp. induction l as [|a l IH]; simpl; throws. Qed.

Lemma throws_mapR {A B : Type} (f : A -> Result B) l :
  (forall a, throwsArgumentErrors (f a)) -> throwsArgumentErrors (mapR f l).
Proof. intros Hp. induction l as [|a l IH]; simpl; throws. Qed.

#[local] Hint Resolve throws_findR throws_filterR throws_mapR : throws.

Lemma throws_selectByAddress {A : Type} (m : list (string * A)) a :
  throwsArgumentErrors (selectByAddress m a).
Proof. unfold selectByAddress. throws. Qed.

Lemma throws_removeAddress a l : throwsArgumentErrors (removeAddress a l).
Proof. unfold removeAddress. apply throws_filterR. intros. throws. Qed.

Lemma throws_indexOfAddress l a : throwsArgumentErrors (indexOfAddress l a).
Proof. unfold indexOfAddress. throws. apply throws_mapR. intros. throws. Qed.

Lemma throws_formatAddressForSor native a :
  throwsArgumentErrors (formatAddressForSor native a).
Proof. unfold formatAddressForSor. throws. Qed.

Lemma throws_getSingleAmountOut l i t :
  throwsArgumentErrors (getSingleAmountOut l i t).
Proof. unfold getSingleAmountOut. cbv zeta. throws. Qed.

Lemma throws_getAmountsOut_forEach all tokensOut i expected acc :
  throwsArgumentErrors (getAmountsOut_forEach all tokensOut i expected acc).
Proof.
  revert i acc.
  induction expected as [|amount rest IH]; intros i acc; simpl; throws.
Qed.

#[local] Hint Resolve throws_selectByAddress throws_removeAddress
  throws_indexOfAddress throws_formatAddressForSor throws_getSingleAmountOut
  throws_getAmountsOut_forEach : throws.


(** ** Validation of the requested outputs *)



(** ** Address helpers *)

Lemma findR_Some {A : Type} (p : A -> Result bool) l a :
  findR p l = Ok (Some a) -> In a l /\ p a = Ok true.
Proof.
  induction l as [|x l IH]; simpl; [discriminate|].
  destruct (p x) as [[|]|] eqn:Hx; simpl; intros H.
  - injection H as <-. auto.
  - destruct (IH H). auto.
  - discriminate.
Qed.

Lemma findR_None {A : Type} (p : A -> Result bool) l :
  findR p l = Ok None -> forall a, In a l -> p a = Ok false.
Proof.
  induction l as [|x l IH]; simpl; [tauto|].
  destruct (p x) as [[|]|] eqn:Hx; simpl; intros H; try discriminate.
  intros a [<-|Ha]; auto.
Qed.

Lemma mapR_Forall2 {A B : Type} (f : A -> Result B) l l' :
  mapR f l = Ok l' -> Forall2 (fun a b => f a = Ok b) l l'.
Proof.
  revert l'. induction l as [|a l IH]; simpl; intros l'.
  - intros [= <-]. constructor.
  - destruct (f a) as [b|] eqn:Hb; simpl; [|discriminate].
    destruct (mapR f l) as [bs|]; simpl; [|discriminate].
    intros [= <-]. constructor; auto.
Qed.

Lemma filterR_In {A : Type} (p : A -> Result bool) l l' a :
  filterR p l = Ok l' -> In a l' -> In a l.
Proof.
  revert l'. induction l as [|x l IH]; simpl; intros l'.
  - intros [= <-]. auto.
  - destruct (p x) as [keep|]; simpl; [|discriminate].
    destruct (filterR p l) as [rest|]; simpl; [|discriminate].
    intros [= <-]. destruct keep; simpl; intuition eauto.
Qed.

Lemma lookupKey_Some {A : Type} (m : list (string * A)) key v :
  lookupKey m key = Some v -> In (key, v) m.
Proof.
  induction m as [|[k x] m IH]; simpl; [discriminate|].
  destruct (String.eqb k key) eqn:Hk.
  - apply String.eqb_eq in Hk as ->. intros [= ->]. auto.
  - auto.
Qed.

Lemma getAddress_nonempty a c :
  Ethers.getAddress a = Ok c -> String.eqb a "" = false.
Proof.
  intros H. destruct (String.eqb a "") eqn:E; [|reflexivity].
  apply String.eqb_eq in E as ->. vm_compute in H. discriminate H.
Qed.

(** two addresses are the same exactly when they have one canonical form *)
Lemma isSameAddress_true a b :
  isSameAddress a b = Ok true ->
  exists c, Ethers.getAddress a = Ok c /\ Ethers.getAddress b = Ok c.
Proof.
  unfold isSameAddress.
  destruct (_ || _); [discriminate|].
  destruct (Ethers.getAddress a) as [ca|]; simpl; [|discriminate].
  destruct (Ethers.getAddress b) as [cb|]; simpl; [|discriminate].
  intros [= H]. apply String.eqb_eq in H as ->. eauto.
Qed.

Lemma isSameAddress_intro a b c :
  Ethers.getAddress a = Ok c -> Ethers.getAddress b = Ok c ->
  isSameAddress a b = Ok true.
Proof.
  intros Ha Hb. unfold isSameAddress.
  rewrite (getAddress_nonempty _ _ Ha), (getAddress_nonempty _ _ Hb), Ha, Hb.
  simpl. now rewrite String.eqb_refl.
Qed.

Lemma selectByAddress_Some {A : Type} (m : list (string * A)) address v :
  selectByAddress m address = Ok (Some v) ->
  exists key, In (key, v) m /\ isSameAddress key address = Ok true.
Proof.
  unfold selectByAddress.
  destruct (findR _ _) as [[key|]|] eqn:Hfind; simpl; try discriminate.
  intros [= Hv]. apply findR_Some in Hfind as [_ Hsame].
  exists key. split; [now apply lookupKey_Some|exact Hsame].
Qed.

(** ** The amounts map of a single-output exit *)

Lemma getSingleAmountOut_singleton amounts index tokenOut m :
  getSingleAmountOut amounts index tokenOut = Ok m ->
  exists amount, m = {[ TokenInfo.address tokenOut := amount ]}.
Proof.
  unfold getSingleAmountOut. cbv zeta.
  destruct (index ≫= _) as [a|].
  - destruct (Ethers.formatFixed _ _) as [amount|]; simpl; [|discriminate].
    intros [= <-]. eauto.
  - destruct (Ethers.getMultiplier _); discriminate.
Qed.

Lemma single_output_query_lower_case_token_map :
  queryExit Scenario.NATIVE_ASSET_ADDRESS Scenario.flatTokenTree Scenario.env_ok
    (Scenario.exitParams Scenario.lowerCaseTokenList "10.0" [Scenario.USDC])
    Scenario.fresh
  = (Ok (Scenario.output {[ Scenario.usdc := "5.0"%string ]}),
     Scenario.built "10000000000000000000" false ["5000000"; "0"]%string,
     [ SignerGetAddress; PoolsFind Scenario.POOL_ID;
       BuildExitExactBPTIn Scenario.EXITER "10000000000000000000" "50" false
         (Some Scenario.usdc);
       CalcPriceImpact ["5000000"; "0"]%string "10000000000000000000" false ]).
Proof. compute_done. Qed.

(** C4, as stated, fails on a token map kept in lower case: the single
    entry of the amounts map is keyed by the address as the token map
    records it, and there is no entry under the requested token's
    canonical checksummed address. *)
Lemma C4_counterexample :
  exists out this' evs,
    queryExit Scenario.NATIVE_ASSET_ADDRESS Scenario.flatTokenTree Scenario.env_ok
      (Scenario.exitParams Scenario.lowerCaseTokenList "10.0" [Scenario.USDC])
      Scenario.fresh = (Ok out, this', evs)
    /\ Ethers.getAddress Scenario.USDC = Ok Scenario.USDC
    /\ dom (QueryOutput.amountsOut out) = {[ Scenario.usdc ]}
    /\ QueryOutput.amountsOut out !! Scenario.USDC = None.
Proof.
  eexists _, _, _. split; [exact single_output_query_lower_case_token_map|].
  repeat apply conj; compute_done.
Qed.

(** C4, amended: for every single-output exit, a successful queryExit
    returns an amounts map with exactly one entry, keyed by the address
    that the token-map entry selected for the requested token records;
    that key is the requested token's canonical checksummed address
    whenever every entry of the token map records the checksummed form of
    the key it is stored under. *)
Theorem C4_single_output_amounts :
  forall NATIVE ftt env params this out this' evs first,
    amountsOut params = [first] ->
    queryExit NATIVE ftt env params this = (Ok out, this', evs) ->
    exists tokenOut amount,
      selectByAddress (tokenInfo params) (AmountOut.address first)
      = Ok (Some tokenOut) /\
      QueryOutput.amountsOut out = {[ TokenInfo.address tokenOut := amount ]} /\
      size (QueryOutput.amountsOut out) = 1%nat /\
      (checksummedTokenMap (tokenInfo params) ->
       Ethers.getAddress (AmountOut.address first)
       = Ok (TokenInfo.address tokenOut)).
Proof.
  intros NATIVE ftt env params this out this' evs first Hout H.
  destruct (queryExit_returns _ _ _ _ _ _ _ _ H)
    as (exiter & sdkPool & first' & rest & tokenOut & parsed & sor & unwrap
        & res & tokensOut & impact & _ & _ & Hfirst & Hsel & _ & _ & _ & _ & _
        & _ & _ & _ & Hbranch).
  rewrite Hout in Hfirst, Hbranch. simplify_eq. simpl in Hbranch.
  destruct Hbranch as (index & _ & Hsingle).
  apply getSingleAmountOut_singleton in Hsingle as [amount Hm].
  exists tokenOut, amount. repeat split; auto.
  - rewrite Hm. apply map_size_singleton.
  - intros Hwf. apply selectByAddress_Some in Hsel as (key & Hin & Hsame).
    apply isSameAddress_true in Hsame as (c & Hkey & Hreq).
    unfold checksummedTokenMap in Hwf. rewrite List.Forall_forall in Hwf.
    specialize (Hwf _ Hin). simpl in Hwf. congruence.
Qed.

Lemma single_output_query_returns :
  queryExit Scenario.NATIVE_ASSET_ADDRESS Scenario.flatTokenTree Scenario.env_ok
    (Scenario.exitParams Scenario.tokenList "10.0" [Scenario.USDC])
    Scenario.fresh
  = (Ok (Scenario.output {[ Scenario.USDC := "5.0"%string ]}),
     Scenario.built "10000000000000000000" false ["5000000"; "0"]%string,
     [ SignerGetAddress; PoolsFind Scenario.POOL_ID;
       BuildExitExactBPTIn Scenario.EXITER "10000000000000000000" "50" false
         (Some Scenario.usdc);
       CalcPriceImpact ["5000000"; "0"]%string "10000000000000000000" false ]).
Proof. compute_done. Qed.

Lemma tokenList_checksummed : checksummedTokenMap Scenario.tokenList.
Proof. unfold checksummedTokenMap. compute_done. Qed.

Lemma C4_witness :
  Ethers.getAddress Scenario.USDC = Ok Scenario.USDC
  /\ size (QueryOutput.amountsOut (Scenario.output {[ Scenario.USDC := "5.0"%string ]}))
     = 1%nat.
Proof.
  destruct (C4_single_output_amounts
              Scenario.NATIVE_ASSET_ADDRESS Scenario.flatTokenTree
              Scenario.env_ok
              (Scenario.exitParams Scenario.tokenList "10.0" [Scenario.USDC])
              Scenario.fresh _ _ _
              (Scenario.request Scenario.USDC) eq_refl
              single_output_query_returns)
    as (tokenOut & amount & Hsel & _ & Hsize & Hkey).
  split; [|exact Hsize].
  vm_compute in Hsel. injection Hsel as <-.
  exact (Hkey tokenList_checksummed).
Defined.

(** ** The amounts map of a multi-output exit *)

(** The keys that [getAmountsOut] inserts, when every reported output has
    a token of the pool: the canonical forms of the reported outputs, one
    for each expected amount. *)
Lemma getAmountsOut_forEach_dom all (tokensOut canonical : list string) :
  Forall2 (fun a c => Ethers.getAddress a = Ok c) tokensOut canonical ->
  (forall a, In a tokensOut ->
             exists t, In t all /\
                       isSameAddress (PoolToken.address t) a = Ok true) ->
  forall expected i acc m,
    getAmountsOut_forEach all tokensOut i expected acc = Ok m ->
    dom m = dom acc ∪ list_to_set (take (List.length expected) (drop i canonical)).
Proof.
  intros Hcanon Hmatch.
  induction expected as [|amount rest IH]; intros i acc m H; simpl in H.
  - injection H as <-. simpl. set_solver.
  - destruct (tokensOut !! i) as [a|] eqn:Ha.
    + destruct (Forall2_lookup_l _ _ _ _ _ Hcanon Ha) as (c & Hc & Hac).
      destruct (findR _ all) as [[t|]|] eqn:Hfind; simpl in H; [| |discriminate].
      * apply findR_Some in Hfind as [_ Hsame].
        apply isSameAddress_true in Hsame as (c' & Ht & Ha').
        assert (c' = c) as -> by congruence.
        rewrite Ht in H. simpl in H.
        destruct (Ethers.formatFixed _ _) as [scaled|]; simpl in H; [|discriminate].
        rewrite (IH _ _ _ H), (drop_S _ _ _ Hc). simpl.
        rewrite dom_insert_L. set_solver.
      * exfalso. destruct (Hmatch a) as (t & Hin & Hsame).
        { apply list_elem_of_In. eapply list_elem_of_lookup_2. exact Ha. }
        rewrite (findR_None _ _ Hfind t Hin) in Hsame. discriminate.
    + simpl in H. rewrite (IH _ _ _ H).
      assert (Hlen : (List.length canonical <= i)%nat).
      { rewrite <- (Forall2_length _ _ _ Hcanon). now apply lookup_ge_None. }
      rewrite !drop_ge by lia. now rewrite !take_nil.
Qed.

(** C5, as stated, fails for a multi-output exit whose first requested
    output is the native asset: the builder is asked to unwrap, the SDK
    reports the zero address in place of the wrapped native token, no
    token of the pool matches it, and the amounts map has no key for
    WETH, although WETH is one of the pool's tokens. *)
Lemma C5_counterexample :
  exists out this' evs,
    queryExit Scenario.NATIVE_ASSET_ADDRESS Scenario.flatTokenTree Scenario.env_ok
      (Scenario.exitParams Scenario.tokenList "10.0"
         [Scenario.NATIVE_ASSET_ADDRESS; Scenario.USDC])
      Scenario.fresh = (Ok out, this', evs)
    /\ removeAddress (Pool.address Scenario.thePool)
         (map PoolToken.address (Scenario.flatTokenTree Scenario.thePool))
       = Ok [Scenario.usdc; Scenario.weth]
    /\ addressSet [Scenario.usdc; Scenario.weth]
       = Ok {[ Scenario.USDC; Scenario.WETH ]}
    /\ dom (QueryOutput.amountsOut out) = {[ Scenario.USDC ]}
    /\ QueryOutput.amountsOut out !! Scenario.WETH = None
    /\ dom (QueryOutput.amountsOut out) <> {[ Scenario.USDC; Scenario.WETH ]}.
Proof.
  exists (Scenario.output {[ Scenario.USDC := "2.5"%string ]}),
         (Scenario.built "10000000000000000000" true
            ["2500000"; "1000000000000000"]%string),
         [ SignerGetAddress; PoolsFind Scenario.POOL_ID;
           BuildExitExactBPTIn Scenario.EXITER "10000000000000000000" "50" true None;
           CalcPriceImpact ["2500000"; "1000000000000000"]%string
             "10000000000000000000" false ].
  repeat apply conj; compute_done.
Qed.

(** C5, amended: for every multi-output exit, when the exit request that
    the SDK built lists, the pool's own address apart, the same addresses
    as the pool's token tree does, with one expected amount for each of
    them, the key set of the amounts map returned by a successful
    queryExit is the set of the canonical checksummed forms of the pool's
    token addresses, the pool's own address excluded. *)
Theorem C5_multi_output_key_set :
  forall NATIVE ftt env params this out this' evs res tokensOut poolTokens keys,
    (1 < List.length (amountsOut params))%nat ->
    queryExit NATIVE ftt env params this = (Ok out, this', evs) ->
    lastExitRes this' = Some res ->
    removeAddress (Pool.address (pool this))
      (assets (exitPoolRequest (attributes res))) = Ok tokensOut ->
    removeAddress (Pool.address (pool this))
      (map PoolToken.address (ftt (pool this))) = Ok poolTokens ->
    List.length (expectedAmountsOut res) = List.length tokensOut ->
    addressSet tokensOut = Ok keys ->
    addressSet poolTokens = Ok keys ->
    dom (QueryOutput.amountsOut out) = keys.
Proof.
  intros NATIVE ftt env params this out this' evs res tokensOut poolTokens keys
         Hmulti H Hres Hout Hpool Hlen Hsdk Hkeys.
  destruct (queryExit_returns _ _ _ _ _ _ _ _ H)
    as (exiter & sdkPool & first & rest & tokenOut & parsed & sor & unwrap
        & res' & tokensOut' & impact & _ & _ & _ & _ & _ & _ & _ & Hres'
        & Hout' & _ & _ & _ & Hbranch).
  assert (res' = res) as -> by congruence.
  assert (tokensOut' = tokensOut) as -> by congruence.
  replace (List.length (amountsOut params) =? 1)%nat with false in Hbranch
    by (symmetry; apply Nat.eqb_neq; lia).
  unfold addressSet in Hsdk, Hkeys.
  destruct (mapR Ethers.getAddress tokensOut) as [cs|] eqn:Hcs;
    simpl in Hsdk; [|discriminate].
  destruct (mapR Ethers.getAddress poolTokens) as [ps|] eqn:Hps;
    simpl in Hkeys; [|discriminate].
  injection Hsdk as Hsdk. injection Hkeys as Hkeys.
  apply mapR_Forall2 in Hcs, Hps.
  erewrite (getAmountsOut_forEach_dom _ _ cs Hcs); [|clear Hbranch|exact Hbranch].
  - rewrite dom_empty_L, drop_0, Hlen, (Forall2_length _ _ _ Hcs), firstn_all.
    rewrite <- Hsdk. apply (left_id_L ∅ (∪)).
  - intros a Ha. apply list_elem_of_In in Ha.
    destruct (proj1 (list_elem_of_lookup _ _) Ha) as [i Hi].
    destruct (Forall2_lookup_l _ _ _ _ _ Hcs Hi) as (c & Hc & Hac).
    assert (Hin : c ∈ ps).
    { apply (elem_of_list_to_set (C := gset string)). rewrite Hkeys, <- Hsdk.
      apply elem_of_list_to_set. eapply list_elem_of_lookup_2. exact Hc. }
    destruct (proj1 (list_elem_of_lookup _ _) Hin) as [j Hj].
    destruct (Forall2_lookup_r _ _ _ _ _ Hps Hj) as (p & Hp & Hpc).
    assert (Hpin : In p (map PoolToken.address (ftt (pool this)))).
    { eapply filterR_In; [exact Hpool|].
      apply list_elem_of_In. eapply list_elem_of_lookup_2. exact Hp. }
    apply in_map_iff in Hpin as (t & <- & Ht).
    exists t. split; [exact Ht|]. eapply isSameAddress_intro; eauto.
Qed.

Lemma multi_output_query_returns :
  queryExit Scenario.NATIVE_ASSET_ADDRESS Scenario.flatTokenTree Scenario.env_ok
    (Scenario.exitParams Scenario.tokenList "10.0" [Scenario.USDC; Scenario.WETH])
    Scenario.fresh
  = (Ok (Scenario.output {[ Scenario.USDC := "2.5"%string;
                            Scenario.WETH := "0.001"%string ]}),
     Scenario.built "10000000000000000000" false
       ["2500000"; "1000000000000000"]%string,
     [ SignerGetAddress; PoolsFind Scenario.POOL_ID;
       BuildExitExactBPTIn Scenario.EXITER "10000000000000000000" "50" false None;
       CalcPriceImpact ["2500000"; "1000000000000000"]%string
         "10000000000000000000" false ]).
Proof. compute_done. Qed.

Lemma C5_witness :
  dom (QueryOutput.amountsOut (Scenario.output {[ Scenario.USDC := "2.5"%string;
                                         Scenario.WETH := "0.001"%string ]}))
  = {[ Scenario.USDC; Scenario.WETH ]}.
Proof.
  refine (C5_multi_output_key_set
            Scenario.NATIVE_ASSET_ADDRESS Scenario.flatTokenTree Scenario.env_ok
            (Scenario.exitParams Scenario.tokenList "10.0"
               [Scenario.USDC; Scenario.WETH])
            Scenario.fresh _ _ _
            (Scenario.response "0x8bdb391310000000000000000000" false
               ["2500000"; "1000000000000000"]%string)
            [Scenario.usdc; Scenario.weth] [Scenario.usdc; Scenario.weth]
            {[ Scenario.USDC; Scenario.WETH ]}
            _ multi_output_query_returns _ _ _ _ _ _).
  - simpl. lia.
  - reflexivity.
  - compute_done.
  - compute_done.
  - reflexivity.
  - compute_done.
  - compute_done.
Defined.

(** ** Fixed-point conversion of the BPT amount *)

Section FixedPoint.

Import Ethers.

(** *** Digits *)

Lemma digit_char_cases d :
0 <= d < 10 ->
d = 0 \/ d = 1 \/ d = 2 \/ d = 3 \/ d = 4 \/ d = 5 \/ d = 6 \/ d = 7 \/ d = 8 \/ d = 9.
Proof. lia. Qed.

Lemma digit_char_isDigit d : 0 <= d < 10 -> isDigit (digit_char d) = true.
Proof.
intros H. destruct (digit_char_cases d H) as [->|[->|[->|[->|[->|[->|[->|[->|[->| ->]]]]]]]]];
  reflexivity.
Qed.

Lemma digit_value_char d : 0 <= d < 10 -> digit_value (digit_char d) = d.
Proof.
intros H. destruct (digit_char_cases d H) as [->|[->|[->|[->|[->|[->|[->|[->|[->| ->]]]]]]]]];
  reflexivity.
Qed.

Lemma isDigit_neq c c' :
isDigit c = true -> isDigit c' = false -> (c =? c')%char = false.
Proof.
intros Hc Hc'. destruct (c =? c')%char eqn:E; [|reflexivity].
apply Ascii.eqb_eq in E. congruence.
Qed.

(** the value of a string of digits *)
Lemma value_of_digits_from cs acc :
fold_left (fun acc c => 10 * acc + digit_value c) cs acc
= acc * 10 ^ Z.of_nat (List.length cs) + value_of_digits cs.
Proof.
unfold value_of_digits. revert acc.
induction cs as [|c cs IH]; intros acc; simpl fold_left.
- simpl. lia.
- rewrite IH, (IH (10 * 0 + digit_value c)).
  change (List.length (c :: cs)) with (S (List.length cs)).
  rewrite Nat2Z.inj_succ, Z.pow_succ_r by lia. lia.
Qed.

Lemma value_of_digits_app a b :
value_of_digits (a ++ b)
= value_of_digits a * 10 ^ Z.of_nat (List.length b) + value_of_digits b.
Proof.
unfold value_of_digits at 1. rewrite fold_left_app.
fold (value_of_digits a). apply value_of_digits_from.
Qed.

Lemma value_of_digits_zeros k : value_of_digits (repeat "0"%char k) = 0.
Proof.
induction k as [|k IH]; [reflexivity|].
change (repeat "0"%char (S k)) with (["0"%char] ++ repeat "0"%char k).
rewrite value_of_digits_app, IH. reflexivity.
Qed.

Lemma value_of_digits_padStart width cs :
value_of_digits (padStart width cs) = value_of_digits cs.
Proof.
unfold padStart. rewrite value_of_digits_app, value_of_digits_zeros. lia.
Qed.

Lemma forallb_isDigit_zeros k : forallb isDigit (repeat "0"%char k) = true.
Proof. induction k; simpl; auto. Qed.

(** *** Printing a number *)
Lemma digits_loop_spec fuel :
forall n acc,
  0 <= n < 10 ^ Z.of_nat (S fuel) ->
  exists ds,
    digits_loop (S fuel) n acc = ds ++ acc /\
    forallb isDigit ds = true /\
    ds <> [] /\
    value_of_digits ds = n /\
    forall k, n < 10 ^ Z.of_nat k -> (0 < k)%nat -> (List.length ds <= k)%nat.
Proof.
induction fuel as [|fuel IH]; intros n acc Hn;
  assert (Hmod : 0 <= n mod 10 < 10) by (apply Z.mod_pos_bound; lia);
  assert (Hdiv : n = 10 * (n / 10) + n mod 10) by (apply Z.div_mod; lia);
  rewrite Nat2Z.inj_succ, Z.pow_succ_r in Hn by lia;
  cbn [digits_loop]; destruct (n / 10 =? 0) eqn:Hq;
  try (apply Z.eqb_eq in Hq; exists [digit_char (n mod 10)];
       repeat split;
       [ simpl; now rewrite digit_char_isDigit
       | discriminate
       | unfold value_of_digits; simpl;
         rewrite digit_value_char by assumption; lia
       | intros k _ Hk; simpl; lia ]).
- apply Z.eqb_neq in Hq. simpl in Hn.
  assert (n / 10 = 0) by (apply Z.div_small; lia). contradiction.
- apply Z.eqb_neq in Hq.
  assert (Hq' : 0 <= n / 10) by (apply Z.div_pos; lia).
  destruct (IH (n / 10) (digit_char (n mod 10) :: acc))
    as (ds & Hds & Hdig & Hne & Hval & Hlen).
  { split; [lia|]. apply Z.div_lt_upper_bound; lia. }
  exists (ds ++ [digit_char (n mod 10)]). repeat split.
  + change (digits_loop (S fuel) (n / 10) (digit_char (n mod 10) :: acc)
            = (ds ++ [digit_char (n mod 10)]) ++ acc).
    rewrite Hds, <- app_assoc. reflexivity.
  + rewrite forallb_app, Hdig. simpl. now rewrite digit_char_isDigit.
  + destruct ds; discriminate.
  + rewrite value_of_digits_app, Hval. unfold value_of_digits at 1. simpl.
    rewrite digit_value_char by assumption. lia.
  + intros k Hk Hpos. rewrite length_app. simpl.
    destruct k as [|k]; [lia|].
    rewrite Nat2Z.inj_succ, Z.pow_succ_r in Hk by lia.
    assert (Hk' : n / 10 < 10 ^ Z.of_nat k) by (apply Z.div_lt_upper_bound; lia).
    destruct k as [|k]; [simpl in Hk'; lia|].
    specialize (Hlen (S k) Hk'). lia.
Qed.

Lemma digits_of_spec n :
0 <= n ->
forallb isDigit (digits_of n) = true /\
digits_of n <> [] /\
value_of_digits (digits_of n) = n /\
forall k, n < 10 ^ Z.of_nat k -> (0 < k)%nat -> (List.length (digits_of n) <= k)%nat.
Proof.
intros Hn. unfold digits_of.
destruct (digits_loop_spec (Z.to_nat (Z.log2 n)) n []) as (ds & Hds & H).
- split; [assumption|].
  rewrite Nat2Z.inj_succ, Z2Nat.id by apply Z.log2_nonneg.
  destruct (Z.eq_dec n 0) as [->|Hz]; [reflexivity|].
  apply Z.lt_le_trans with (2 ^ Z.succ (Z.log2 n)).
  + apply Z.log2_spec. lia.
  + apply Z.pow_le_mono_l. split; [lia|lia].
- rewrite Hds, app_nil_r. exact H.
Qed.

(** *** Reading back what was printed *)
Lemma startsWith_digit c cs :
forallb isDigit cs = true -> isDigit c = false -> startsWith c cs = false.
Proof.
destruct cs as [|c0 cs]; [reflexivity|]. simpl.
intros H Hc. apply andb_true_iff in H as [H0 _]. now apply isDigit_neq.
Qed.

Lemma isHexLiteral_digits cs : forallb isDigit cs = true -> isHexLiteral cs = false.
Proof.
destruct cs as [|c0 [|x hex]]; try reflexivity. simpl.
intros H. apply andb_true_iff in H as [_ H].
apply andb_true_iff in H as [Hx _].
rewrite (isDigit_neq x "x" Hx eq_refl), (isDigit_neq x "X" Hx eq_refl).
now rewrite andb_false_r.
Qed.

Lemma from_chars_digits cs :
forallb isDigit cs = true -> cs <> [] ->
from_chars cs = Ok (value_of_digits cs).
Proof.
intros Hd Hne. unfold from_chars.
rewrite (startsWith_digit "-" cs Hd eq_refl), (isHexLiteral_digits cs Hd).
unfold isDecimalLiteral. rewrite Hd.
destruct cs; [contradiction|reflexivity].
Qed.

Lemma from_chars_toString n : from_chars (toString_chars n) = Ok n.
Proof.
unfold toString_chars. destruct (n <? 0) eqn:Hneg.
- apply Z.ltb_lt in Hneg.
  destruct (digits_of_spec (- n)) as (Hd & Hne & Hv & _); [lia|].
  unfold from_chars. cbn [startsWith tl]. rewrite Ascii.eqb_refl.
  rewrite (isHexLiteral_digits _ Hd). unfold isDecimalLiteral. rewrite Hd, Hv.
  destruct (digits_of (- n)); [contradiction|]. simpl. f_equal. lia.
- apply Z.ltb_ge in Hneg.
  destruct (digits_of_spec n Hneg) as (Hd & Hne & Hv & _).
  now rewrite from_chars_digits, Hv.
Qed.

Lemma from_toString n : from (toString n) = Ok n.
Proof.
unfold from, toString. rewrite list_ascii_of_string_of_list_ascii.
apply from_chars_toString.
Qed.

(** *** Splitting at the point *)
Lemma split_dot_digits cs : forallb isDigit cs = true -> split_dot cs = [cs].
Proof.
induction cs as [|c cs IH]; [reflexivity|]. simpl.
intros H. apply andb_true_iff in H as [Hc Hcs].
rewrite (isDigit_neq c "." Hc eq_refl), (IH Hcs). reflexivity.
Qed.

Lemma split_dot_point whole fraction :
forallb isDigit whole = true -> forallb isDigit fraction = true ->
split_dot (whole ++ "."%char :: fraction) = [whole; fraction].
Proof.
intros Hw Hf. induction whole as [|c cs IH]; simpl.
- now rewrite split_dot_digits.
- simpl in Hw. apply andb_true_iff in Hw as [Hc Hcs].
  rewrite (isDigit_neq c "." Hc eq_refl), (IH Hcs). reflexivity.
Qed.

(** *** Final zeros of the fraction *)
Lemma trimTrailingZeros_decompose cs :
exists k, cs = trimTrailingZeros cs ++ repeat "0"%char k.
Proof.
induction cs as [|c cs [k IH]]; [exists O; reflexivity|]. simpl.
destruct (trimTrailingZeros cs) as [|c' cs'] eqn:Ht.
- destruct (c =? "0")%char eqn:Hc.
  + apply Ascii.eqb_eq in Hc as ->. exists (S k). simpl. now rewrite IH at 1.
  + exists k. simpl. now rewrite IH at 1.
- exists k. simpl. now rewrite IH at 1.
Qed.

Lemma trimTrailingZeros_idem cs :
trimTrailingZeros (trimTrailingZeros cs) = trimTrailingZeros cs.
Proof.
induction cs as [|c cs IH]; [reflexivity|]. simpl.
destruct (trimTrailingZeros cs) as [|c' cs'] eqn:Ht.
- destruct (c =? "0")%char eqn:Hc; [reflexivity|]. simpl. now rewrite Hc.
- simpl in *. rewrite IH. reflexivity.
Qed.

Lemma trimTrailingZeros_stripFraction cs :
trimTrailingZeros (stripFraction cs) = trimTrailingZeros cs.
Proof.
unfold stripFraction. destruct (trimTrailingZeros cs) eqn:Ht; [reflexivity|].
rewrite <- Ht. apply trimTrailingZeros_idem.
Qed.

Lemma trimTrailingZeros_length cs :
(List.length (trimTrailingZeros cs) <= List.length cs)%nat.
Proof.
destruct (trimTrailingZeros_decompose cs) as [k H].
rewrite H at 2. rewrite length_app. lia.
Qed.

Lemma trimTrailingZeros_digits cs :
forallb isDigit cs = true -> forallb isDigit (trimTrailingZeros cs) = true.
Proof.
destruct (trimTrailingZeros_decompose cs) as [k H].
intros Hd. rewrite H, forallb_app in Hd. now apply andb_true_iff in Hd as [Hd _].
Qed.

Lemma stripFraction_digits cs :
forallb isDigit cs = true -> forallb isDigit (stripFraction cs) = true.
Proof.
intros H. unfold stripFraction.
pose proof (trimTrailingZeros_digits cs H) as Ht.
destruct (trimTrailingZeros cs); [reflexivity|exact Ht].
Qed.

Lemma stripFraction_nonempty cs : stripFraction cs <> [].
Proof. unfold stripFraction. destruct (trimTrailingZeros cs); discriminate. Qed.

(** the fraction that formatFixed prints is padded back to the fraction it
  was printed from *)
Lemma padEnd_stripFraction cs :
cs <> [] -> padEnd (List.length cs) (stripFraction cs) = cs.
Proof.
intros Hne. destruct (trimTrailingZeros_decompose cs) as [k H].
unfold stripFraction, padEnd.
destruct (trimTrailingZeros cs) as [|c' cs'] eqn:Ht.
- simpl in H. rewrite H, repeat_length.
  destruct k; [subst cs; contradiction|]. simpl. now rewrite Nat.sub_0_r.
- assert (Hlen : List.length cs = (List.length (c' :: cs') + k)%nat).
  { rewrite H at 1. now rewrite length_app, repeat_length. }
  rewrite Hlen.
  replace (List.length (c' :: cs') + k - List.length (c' :: cs'))%nat with k by lia.
  symmetry. exact H.
Qed.

Lemma forallb_isDecimalChar_digits cs :
forallb isDigit cs = true -> forallb isDecimalChar cs = true.
Proof.
induction cs as [|c cs IH]; [reflexivity|]. simpl. intros H.
apply andb_true_iff in H as [Hc Hcs]. unfold isDecimalChar at 1.
now rewrite Hc, IH.
Qed.

Lemma getMultiplier_Ok d : (d <= 256)%nat -> getMultiplier d = Ok (10 ^ Z.of_nat d).
Proof.
intros H. unfold getMultiplier.
now replace (d <=? 256)%nat with true by (symmetry; apply Nat.leb_le; exact H).
Qed.

Lemma parseFixed_printed (negative : bool) whole fraction d :
(0 < d <= 256)%nat ->
forallb isDigit whole = true -> whole <> [] ->
forallb isDigit fraction = true -> List.length fraction = d ->
parseFixed
  (string_of_list_ascii
     ((if negative then ["-"%char] else [])
        ++ whole ++ "."%char :: stripFraction fraction)) d
= Ok (let wei := value_of_digits whole * 10 ^ Z.of_nat d
                 + value_of_digits fraction in
      if negative then - wei else wei).
Proof.
intros Hd Hw Hwne Hf Hlen.
assert (Hfne : fraction <> []) by (destruct fraction; [simpl in Hlen; lia|discriminate]).
pose proof (stripFraction_digits _ Hf) as Hsf.
pose proof (stripFraction_nonempty fraction) as Hsfne.
set (text := whole ++ "."%char :: stripFraction fraction).
unfold parseFixed. rewrite getMultiplier_Ok by lia. cbn [bindR].
rewrite list_ascii_of_string_of_list_ascii.
assert (Hneg : startsWith "-" ((if negative then ["-"%char] else []) ++ text) = negative).
{ destruct negative; [reflexivity|]. subst text. destruct whole as [|c w]; [contradiction|].
  simpl in *. apply andb_true_iff in Hw as [Hc _]. now apply isDigit_neq. }
rewrite Hneg.
assert (Hbody : (if negative then tl ((if negative then ["-"%char] else []) ++ text)
                 else (if negative then ["-"%char] else []) ++ text) = text).
{ destruct negative; reflexivity. }
rewrite Hbody. clear Hneg Hbody.
assert (Hdec : forallb isDecimalChar text = true).
{ subst text. rewrite forallb_app. simpl.
  now rewrite !forallb_isDecimalChar_digits. }
assert (Hnz : (List.length text =? 0)%nat = false).
{ subst text. destruct whole; [contradiction|reflexivity]. }
assert (Hpoint : eqb_chars text ["."%char] = false).
{ unfold eqb_chars. apply bool_decide_eq_false. subst text.
  destruct whole as [|c w]; [contradiction|]. simpl. intros [= -> _].
  simpl in Hw. discriminate Hw. }
rewrite Hdec, Hnz, Hpoint. cbn [negb orb].
subst text. rewrite (split_dot_point _ _ Hw Hsf).
change (2 <? List.length [whole; stripFraction fraction])%nat with false.
cbn [nth].
destruct whole as [|c w] eqn:Ew; [contradiction|]. rewrite <- Ew in *.
destruct (stripFraction fraction) as [|c' f'] eqn:Ef; [contradiction|]. rewrite <- Ef in *.
rewrite trimTrailingZeros_stripFraction.
replace (d <? List.length (trimTrailingZeros fraction))%nat with false
  by (symmetry; apply Nat.ltb_ge; rewrite <- Hlen; apply trimTrailingZeros_length).
cbv iota.
replace (match trimTrailingZeros fraction with
         | [] => ["0"%char]
         | _ :: _ => trimTrailingZeros fraction
         end) with (stripFraction fraction)
  by (unfold stripFraction; destruct (trimTrailingZeros fraction); reflexivity).
subst d. rewrite (padEnd_stripFraction _ Hfne).
rewrite (from_chars_digits _ Hw Hwne), (from_chars_digits _ Hf Hfne).
reflexivity.
Qed.

Lemma parseFixed_formatFixed_bn n d :
(0 < d <= 256)%nat ->
exists printed,
  formatFixed_bn n d = Ok printed /\ parseFixed printed d = Ok n.
Proof.
intros Hd. unfold formatFixed_bn. rewrite getMultiplier_Ok by lia. cbn [bindR].
cbv zeta.
set (v := if n <? 0 then - n else n).
set (m := 10 ^ Z.of_nat d).
assert (Hv : 0 <= v) by (subst v; destruct (n <? 0) eqn:E; [apply Z.ltb_lt in E|apply Z.ltb_ge in E]; lia).
assert (Hm : 0 < m) by (subst m; apply Z.pow_pos_nonneg; lia).
assert (Hmod : 0 <= v mod m < m) by (apply Z.mod_pos_bound; exact Hm).
assert (Hdiv : 0 <= v / m) by (apply Z.div_pos; lia).
destruct (digits_of_spec (v / m) Hdiv) as (Hw & Hwne & Hwv & _).
destruct (digits_of_spec (v mod m) (proj1 Hmod)) as (Hf & Hfne & Hfv & Hflen).
specialize (Hflen d (proj2 Hmod) (proj1 Hd)).
replace (d =? 0)%nat with false by (symmetry; apply Nat.eqb_neq; lia).
eexists. split; [reflexivity|].
pose proof (parseFixed_printed (n <? 0) (digits_of (v / m))
              (padStart d (digits_of (v mod m))) d Hd Hw Hwne) as Hparse.
replace (if n <? 0
         then "-"%char :: digits_of (v / m) ++
                "."%char :: stripFraction (padStart d (digits_of (v mod m)))
         else digits_of (v / m) ++
                "."%char :: stripFraction (padStart d (digits_of (v mod m))))
  with ((if n <? 0 then ["-"%char] else []) ++ digits_of (v / m) ++
          "."%char :: stripFraction (padStart d (digits_of (v mod m))))
  by (destruct (n <? 0); reflexivity).
rewrite Hparse.
- cbv zeta. rewrite value_of_digits_padStart, Hwv, Hfv. fold m.
  f_equal. subst v. pose proof (Z.div_mod (if n <? 0 then - n else n) m).
  destruct (n <? 0) eqn:E; [apply Z.ltb_lt in E|apply Z.ltb_ge in E]; lia.
- unfold padStart. rewrite forallb_app, forallb_isDigit_zeros, Hf. reflexivity.
- unfold padStart. rewrite length_app, repeat_length. lia.
Qed.

Lemma formatFixed_toString n d :
formatFixed (toString n) d = formatFixed_bn n d.
Proof.
unfold formatFixed. rewrite from_toString. unfold formatFixed_bn.
destruct (getMultiplier d); reflexivity.
Qed.


(** *** Reading back the digits of a number *)

Lemma digits_loop_S fuel n acc :
  digits_loop (S fuel) n acc
  = if n / 10 =? 0 then digit_char (n mod 10) :: acc
    else digits_loop fuel (n / 10) (digit_char (n mod 10) :: acc).
Proof. reflexivity. Qed.

Lemma digits_loop_acc fuel :
  forall n acc, digits_loop fuel n acc = digits_loop fuel n [] ++ acc.
Proof.
  induction fuel as [|fuel IH]; intros n acc; [reflexivity|].
  rewrite !digits_loop_S. destruct (n / 10 =? 0); [reflexivity|].
  rewrite IH, (IH _ [_]), <- app_assoc. reflexivity.
Qed.

(** the digits do not depend on the fuel, once there is enough of it *)
Lemma digits_loop_fuel f1 :
  forall f2 n acc,
    0 <= n < 10 ^ Z.of_nat (S f1) -> n < 10 ^ Z.of_nat (S f2) ->
    digits_loop (S f1) n acc = digits_loop (S f2) n acc.
Proof.
  induction f1 as [|f1 IH]; intros f2 n acc Hn1 Hn2;
    rewrite !digits_loop_S; destruct (n / 10 =? 0) eqn:Hq; try reflexivity;
    apply Z.eqb_neq in Hq.
  - change (10 ^ Z.of_nat 1) with 10 in Hn1.
    assert (n / 10 = 0) by (apply Z.div_small; lia). contradiction.
  - destruct f2 as [|f2].
    + change (10 ^ Z.of_nat 1) with 10 in Hn2.
      assert (n / 10 = 0) by (apply Z.div_small; lia). contradiction.
    + rewrite Nat2Z.inj_succ, Z.pow_succ_r in Hn1, Hn2 by lia.
      apply IH.
      * split; [apply Z.div_pos; lia|apply Z.div_lt_upper_bound; lia].
      * apply Z.div_lt_upper_bound; lia.
Qed.

Lemma lt_pow2_log2 n : 0 <= n -> n < 2 ^ Z.succ (Z.log2 n).
Proof.
  intros Hn. destruct (Z.eq_dec n 0) as [->|Hz]; [reflexivity|].
  apply Z.log2_spec. lia.
Qed.

Lemma digits_of_snoc v d :
  0 <= v -> 0 <= d < 10 ->
  digits_of (10 * v + d)
  = (if v =? 0 then [] else digits_of v) ++ [digit_char d].
Proof.
  intros Hv Hd. unfold digits_of at 1. rewrite digits_loop_S.
  replace ((10 * v + d) / 10) with v
    by (apply Z.div_unique with d; lia).
  replace ((10 * v + d) mod 10) with d
    by (apply Z.mod_unique with v; lia).
  destruct (v =? 0) eqn:Hz; [reflexivity|]. apply Z.eqb_neq in Hz.
  rewrite digits_loop_acc. f_equal. unfold digits_of.
  set (n := 10 * v + d).
  assert (Hlog : 0 < Z.log2 n) by (apply Z.log2_pos; lia).
  destruct (Z.to_nat (Z.log2 n)) as [|f1] eqn:Hf; [lia|].
  pose proof (lt_pow2_log2 n ltac:(lia)) as Hn.
  pose proof (lt_pow2_log2 v Hv) as Hv2.
  rewrite Z.pow_succ_r in Hn by lia.
  apply digits_loop_fuel.
  - split; [exact Hv|]. rewrite <- Hf, Z2Nat.id by lia.
    apply Z.lt_le_trans with (2 ^ Z.log2 n); [lia|].
    apply Z.pow_le_mono_l. lia.
  - rewrite Nat2Z.inj_succ, Z2Nat.id by apply Z.log2_nonneg.
    apply Z.lt_le_trans with (2 ^ Z.succ (Z.log2 v)); [exact Hv2|].
    apply Z.pow_le_mono_l. lia.
Qed.

Lemma digit_value_bounds c : isDigit c = true -> 0 <= digit_value c < 10.
Proof.
  unfold isDigit, digit_value. intros H.
  apply andb_true_iff in H as [H1 H2].
  apply Z.leb_le in H1, H2. lia.
Qed.

Lemma digit_char_value c : isDigit c = true -> digit_char (digit_value c) = c.
Proof.
  intros H. pose proof (digit_value_bounds c H) as Hb.
  unfold digit_char, digit_value, chr, code in *.
  replace (48 + (Z.of_N (N_of_ascii c) - 48)) with (Z.of_N (N_of_ascii c)) by lia.
  rewrite N2Z.id. apply ascii_N_embedding.
Qed.

Lemma digit_value_pos c :
  isDigit c = true -> (c =? "0")%char = false -> 0 < digit_value c.
Proof.
  intros Hc Hz. pose proof (digit_value_bounds c Hc) as Hb.
  destruct (Z.eq_dec (digit_value c) 0) as [E|E]; [|lia].
  pose proof (digit_char_value c Hc) as H. rewrite E in H.
  change (digit_char 0) with "0"%char in H. subst c. discriminate Hz.
Qed.

Lemma value_of_digits_snoc cs c :
  value_of_digits (cs ++ [c]) = 10 * value_of_digits cs + digit_value c.
Proof.
  rewrite value_of_digits_app. unfold value_of_digits at 2. simpl. lia.
Qed.

Lemma value_of_digits_cons c cs :
  value_of_digits (c :: cs)
  = digit_value c * 10 ^ Z.of_nat (List.length cs) + value_of_digits cs.
Proof.
  change (c :: cs) with ([c] ++ cs). rewrite value_of_digits_app.
  unfold value_of_digits at 1. simpl. lia.
Qed.

Lemma value_of_digits_bounds cs :
  forallb isDigit cs = true ->
  0 <= value_of_digits cs < 10 ^ Z.of_nat (List.length cs).
Proof.
  induction cs as [|c cs IH]; [intros _; unfold value_of_digits; simpl; lia|].
  intros H. simpl in H. apply andb_true_iff in H as [Hc Hcs].
  specialize (IH Hcs). pose proof (digit_value_bounds c Hc) as Hb.
  rewrite value_of_digits_cons.
  change (List.length (c :: cs)) with (S (List.length cs)).
  rewrite Nat2Z.inj_succ, Z.pow_succ_r by lia. nia.
Qed.

(** printing gives back a string of digits that does not start with a
    zero *)
Lemma digits_of_value_of_digits cs :
  forallb isDigit cs = true -> cs <> [] -> startsWith "0" cs = false ->
  digits_of (value_of_digits cs) = cs /\ 0 < value_of_digits cs.
Proof.
  induction cs as [|c cs IH] using rev_ind; [contradiction|].
  intros Hd _ Hz. rewrite forallb_app in Hd.
  apply andb_true_iff in Hd as [Hcs Hc]. simpl in Hc.
  rewrite andb_true_r in Hc.
  pose proof (digit_value_bounds c Hc) as Hb.
  rewrite value_of_digits_snoc.
  destruct cs as [|c0 cs'].
  - simpl in Hz. change (value_of_digits []) with 0.
    pose proof (digit_value_pos c Hc) as Hpos.
    rewrite Ascii.eqb_sym in Hz. specialize (Hpos Hz).
    rewrite digits_of_snoc by lia. simpl. rewrite digit_char_value by exact Hc.
    split; [reflexivity|lia].
  - destruct IH as [IH Hpos]; [exact Hcs|discriminate|exact Hz|].
    rewrite digits_of_snoc by lia.
    replace (value_of_digits (c0 :: cs') =? 0) with false
      by (symmetry; apply Z.eqb_neq; lia).
    rewrite IH, digit_char_value by exact Hc. split; [reflexivity|lia].
Qed.

Lemma noLeadingZero_cases cs :
  Decimal.noLeadingZero cs = true ->
  cs = ["0"%char] \/ (cs <> [] /\ startsWith "0" cs = false).
Proof.
  destruct cs as [|c [|c' cs]]; simpl; try discriminate.
  - intros _. destruct (c =? "0")%char eqn:E.
    + apply Ascii.eqb_eq in E as ->. now left.
    + right. split; [discriminate|reflexivity].
  - intros H. right. split; [discriminate|]. now apply negb_true_iff in H.
Qed.

(** the whole part: printing what was read *)
Lemma digits_of_whole cs :
  forallb isDigit cs = true -> Decimal.noLeadingZero cs = true ->
  digits_of (value_of_digits cs) = cs.
Proof.
  intros Hd Hn. destruct (noLeadingZero_cases cs Hn) as [->|[Hne Hz]].
  - reflexivity.
  - apply digits_of_value_of_digits; assumption.
Qed.

Lemma padStart_cons width cs :
  (List.length cs <= width)%nat ->
  padStart (S width) cs = "0"%char :: padStart width cs.
Proof.
  intros H. unfold padStart.
  replace (S width - List.length cs)%nat with (S (width - List.length cs)) by lia.
  reflexivity.
Qed.

(** the fraction: printing what was read, at the same width *)
Lemma padStart_digits_of cs :
  forallb isDigit cs = true -> cs <> [] ->
  padStart (List.length cs) (digits_of (value_of_digits cs)) = cs.
Proof.
  induction cs as [|c cs IH]; [contradiction|]. intros Hd _.
  simpl in Hd. apply andb_true_iff in Hd as [Hc Hcs].
  destruct (c =? "0")%char eqn:Hz.
  - apply Ascii.eqb_eq in Hz as ->.
    rewrite value_of_digits_cons. change (digit_value "0") with 0.
    rewrite Z.mul_0_l, Z.add_0_l.
    destruct cs as [|c' cs']; [reflexivity|].
    change (List.length ("0"%char :: c' :: cs')) with (S (List.length (c' :: cs'))).
    rewrite padStart_cons.
    + rewrite IH; [reflexivity|exact Hcs|discriminate].
    + destruct (value_of_digits_bounds _ Hcs) as [Hlo Hhi].
      destruct (digits_of_spec _ Hlo) as (_ & _ & _ & Hlen).
      apply Hlen; [exact Hhi|simpl; lia].
  - destruct (digits_of_value_of_digits (c :: cs)) as [-> _].
    + simpl. now rewrite Hc.
    + discriminate.
    + simpl. now rewrite Ascii.eqb_sym.
    + unfold padStart. rewrite Nat.sub_diag. reflexivity.
Qed.

(** *** Final zeros, once more *)

Lemma trimTrailingZeros_zeros k : trimTrailingZeros (repeat "0"%char k) = [].
Proof. induction k as [|k IH]; [reflexivity|]. simpl. now rewrite IH. Qed.

Lemma trimTrailingZeros_app_zeros cs k :
  trimTrailingZeros (cs ++ repeat "0"%char k) = trimTrailingZeros cs.
Proof.
  induction cs as [|c cs IH]; simpl.
  - apply trimTrailingZeros_zeros.
  - now rewrite IH.
Qed.

Lemma trimTrailingZeros_snoc cs c :
  (c =? "0")%char = false -> trimTrailingZeros (cs ++ [c]) = cs ++ [c].
Proof.
  intros Hc. induction cs as [|a cs IH]; simpl.
  - now rewrite Hc.
  - rewrite IH. destruct (cs ++ [c]) eqn:E; [|reflexivity].
    destruct cs; discriminate E.
Qed.

Lemma startsWith_app c l l' : l <> [] -> startsWith c (l ++ l') = startsWith c l.
Proof. destruct l; [contradiction|reflexivity]. Qed.

Lemma trimTrailingZeros_last cs :
  trimTrailingZeros cs <> [] ->
  startsWith "0" (rev (trimTrailingZeros cs)) = false.
Proof.
  induction cs as [|c cs IH]; [contradiction|]. simpl.
  destruct (trimTrailingZeros cs) as [|c' cs'] eqn:Ht.
  - destruct (c =? "0")%char eqn:Hc; [contradiction|]. intros _. simpl.
    now rewrite Ascii.eqb_sym.
  - intros _. change (rev (c :: c' :: cs')) with (rev (c' :: cs') ++ [c]).
    rewrite startsWith_app.
    + apply IH. discriminate.
    + intros E. apply (f_equal (@List.length ascii)) in E.
      rewrite length_rev in E. discriminate E.
Qed.

Lemma noLeadingZero_intro cs :
  cs <> [] -> startsWith "0" cs = false -> Decimal.noLeadingZero cs = true.
Proof.
  destruct cs as [|c [|c' cs]]; [contradiction|reflexivity|].
  simpl. intros _ H. now rewrite H.
Qed.

Lemma stripFraction_noFinalZero cs :
  Decimal.noLeadingZero (rev (stripFraction cs)) = true.
Proof.
  unfold stripFraction.
  pose proof (trimTrailingZeros_last cs) as H.
  destruct (trimTrailingZeros cs) as [|c' cs'] eqn:Ht; [reflexivity|].
  apply noLeadingZero_intro.
  - intros E. apply (f_equal (@List.length ascii)) in E.
    rewrite length_rev in E. discriminate E.
  - apply H. discriminate.
Qed.

Lemma stripFraction_length cs :
  cs <> [] -> (List.length (stripFraction cs) <= List.length cs)%nat.
Proof.
  intros Hne. unfold stripFraction.
  pose proof (trimTrailingZeros_length cs) as H.
  destruct (trimTrailingZeros cs); [|exact H].
  destruct cs; [contradiction|simpl; lia].
Qed.

(** a fraction without final zeros is what is left of it once it has
    been padded and stripped again *)
Lemma stripFraction_padEnd d fraction :
  Decimal.noLeadingZero (rev fraction) = true ->
  stripFraction (padEnd d fraction) = fraction.
Proof.
  intros H. unfold stripFraction, padEnd.
  rewrite trimTrailingZeros_app_zeros.
  destruct (noLeadingZero_cases _ H) as [E|[Hne Hz]].
  - apply (f_equal (@rev ascii)) in E. rewrite rev_involutive in E.
    subst fraction. reflexivity.
  - destruct (rev fraction) as [|c l] eqn:E; [contradiction|].
    apply (f_equal (@rev ascii)) in E. rewrite rev_involutive in E.
    simpl in E, Hz. subst fraction. rewrite Ascii.eqb_sym in Hz.
    rewrite (trimTrailingZeros_snoc _ _ Hz).
    destruct (rev l ++ [c]) eqn:E; [|reflexivity].
    destruct (rev l); discriminate E.
Qed.

Lemma stripFraction_zero cs :
  forallb isDigit cs = true -> stripFraction cs = ["0"%char] ->
  value_of_digits cs = 0.
Proof.
  intros Hd H. destruct (trimTrailingZeros_decompose cs) as [k Hk].
  unfold stripFraction in H. rewrite Hk, value_of_digits_app, value_of_digits_zeros.
  destruct (trimTrailingZeros cs).
  - reflexivity.
  - rewrite H. reflexivity.
Qed.

(** *** The digits of a number carry no leading zero *)

Lemma digit_char_nonzero d :
  0 < d < 10 -> (digit_char d =? "0")%char = false.
Proof.
  intros H.
  destruct (digit_char_cases d ltac:(lia))
    as [->|[->|[->|[->|[->|[->|[->|[->|[->| ->]]]]]]]]];
    try reflexivity; lia.
Qed.

Lemma digits_of_positive (k : nat) :
  forall n, 0 < n < Z.of_nat k -> startsWith "0" (digits_of n) = false.
Proof.
  induction k as [|k IH]; intros n Hn; [lia|].
  assert (Hmod : 0 <= n mod 10 < 10) by (apply Z.mod_pos_bound; lia).
  assert (Hdiv : n = 10 * (n / 10) + n mod 10) by (apply Z.div_mod; lia).
  assert (Hq : 0 <= n / 10) by (apply Z.div_pos; lia).
  rewrite Hdiv, digits_of_snoc by assumption.
  destruct (n / 10 =? 0) eqn:Hz.
  - apply Z.eqb_eq in Hz. simpl. rewrite Ascii.eqb_sym.
    apply digit_char_nonzero. lia.
  - apply Z.eqb_neq in Hz.
    destruct (digits_of_spec (n / 10) Hq) as (_ & Hne & _).
    rewrite startsWith_app by exact Hne.
    apply IH. lia.
Qed.

Lemma digits_of_noLeadingZero n :
  0 <= n -> Decimal.noLeadingZero (digits_of n) = true.
Proof.
  intros Hn. destruct (Z.eq_dec n 0) as [->|Hz]; [reflexivity|].
  destruct (digits_of_spec n Hn) as (_ & Hne & _).
  apply noLeadingZero_intro; [exact Hne|].
  apply (digits_of_positive (Z.to_nat (n + 1))). lia.
Qed.

(** *** The canonical form *)

Lemma spanDigits_spec cs :
  cs = fst (Decimal.spanDigits cs) ++ snd (Decimal.spanDigits cs)
  /\ forallb isDigit (fst (Decimal.spanDigits cs)) = true.
Proof.
  induction cs as [|c cs [IH1 IH2]]; [split; reflexivity|]. simpl.
  destruct (isDigit c) eqn:Hc; [|split; reflexivity].
  destruct (Decimal.spanDigits cs) as [digits tail]. simpl in *.
  split; [now rewrite IH1 at 1|now rewrite Hc].
Qed.

Lemma spanDigits_point whole fraction :
  forallb isDigit whole = true ->
  Decimal.spanDigits (whole ++ "."%char :: fraction)
  = (whole, "."%char :: fraction).
Proof.
  induction whole as [|c cs IH]; [reflexivity|]. simpl. intros H.
  apply andb_true_iff in H as [Hc Hcs]. now rewrite Hc, (IH Hcs).
Qed.

Lemma startsWith_signed negative whole rest :
  forallb isDigit whole = true -> whole <> [] ->
  startsWith "-" (Decimal.signed negative (whole ++ rest)) = negative.
Proof.
  intros Hw Hne. destruct negative; [reflexivity|].
  destruct whole as [|c w]; [contradiction|]. simpl in *.
  apply andb_true_iff in Hw as [Hc _]. now apply isDigit_neq.
Qed.

Lemma isCanonical_intro d negative whole fraction :
  forallb isDigit whole = true -> forallb isDigit fraction = true ->
  (List.length fraction <= d)%nat ->
  Decimal.noLeadingZero whole = true ->
  Decimal.noLeadingZero (rev fraction) = true ->
  (negative = true -> whole = ["0"%char] -> fraction = ["0"%char] -> False) ->
  Decimal.isCanonical d
    (string_of_list_ascii (Decimal.signed negative (whole ++ "."%char :: fraction)))
  = true.
Proof.
  intros Hw Hf Hlen Hnw Hnf Hzero. unfold Decimal.isCanonical.
  rewrite list_ascii_of_string_of_list_ascii.
  assert (Hwne : whole <> []) by (destruct whole; [discriminate Hnw|discriminate]).
  rewrite (startsWith_signed _ _ _ Hw Hwne).
  replace (if negative then tl (Decimal.signed negative (whole ++ "."%char :: fraction))
           else Decimal.signed negative (whole ++ "."%char :: fraction))
    with (whole ++ "."%char :: fraction) by (destruct negative; reflexivity).
  rewrite (spanDigits_point _ _ Hw), Hf, Hnw, Hnf.
  replace (List.length fraction <=? d)%nat with true
    by (symmetry; apply Nat.leb_le; exact Hlen).
  simpl. apply negb_true_iff. unfold eqb_chars.
  destruct negative; [|reflexivity]. simpl.
  destruct (bool_decide (whole = ["0"%char])) eqn:E1; [|reflexivity].
  destruct (bool_decide (fraction = ["0"%char])) eqn:E2; [|reflexivity].
  apply bool_decide_eq_true in E1, E2. destruct (Hzero eq_refl E1 E2).
Qed.

Lemma isCanonical_elim d text :
  Decimal.isCanonical d text = true ->
  exists negative whole fraction,
    text = string_of_list_ascii (Decimal.signed negative (whole ++ "."%char :: fraction))
    /\ forallb isDigit whole = true /\ forallb isDigit fraction = true
    /\ (List.length fraction <= d)%nat
    /\ Decimal.noLeadingZero whole = true
    /\ Decimal.noLeadingZero (rev fraction) = true
    /\ (negative = true -> whole = ["0"%char] -> fraction = ["0"%char] -> False).
Proof.
  unfold Decimal.isCanonical. intros H.
  rewrite <- (string_of_list_ascii_of_string text).
  set (cs := list_ascii_of_string text) in *.
  set (negative := startsWith "-" cs) in *.
  set (body := if negative then tl cs else cs) in *.
  assert (Hcs : cs = Decimal.signed negative body).
  { subst body negative. destruct cs as [|c cs']; [reflexivity|]. simpl.
    destruct (c =? "-")%char eqn:E; [|reflexivity].
    apply Ascii.eqb_eq in E as ->. reflexivity. }
  destruct (spanDigits_spec body) as [Hbody Hw].
  destruct (Decimal.spanDigits body) as [whole rest]. simpl in Hbody, Hw.
  destruct rest as [|c fraction]; [discriminate H|].
  destruct (c =? ".")%char eqn:Hc.
  2:{ destruct c as [[] [] [] [] [] [] [] []]; try discriminate H;
      discriminate Hc. }
  apply Ascii.eqb_eq in Hc as ->.
  apply andb_true_iff in H as [H Hzero].
  apply andb_true_iff in H as [H Hnf].
  apply andb_true_iff in H as [H Hnw].
  apply andb_true_iff in H as [Hf Hlen].
  apply Nat.leb_le in Hlen. apply negb_true_iff in Hzero.
  exists negative, whole, fraction.
  rewrite Hcs, Hbody. repeat split; auto.
  intros Hneg E1 E2. rewrite Hneg in Hzero. unfold eqb_chars in Hzero.
  rewrite !bool_decide_eq_true_2 in Hzero by assumption. discriminate Hzero.
Qed.

(** *** Writing back a canonical string *)

Lemma formatFixed_bn_chars n d :
  (0 < d <= 256)%nat ->
  formatFixed_bn n d
  = Ok (string_of_list_ascii
          (Decimal.signed (n <? 0)
             (digits_of (Z.abs n / 10 ^ Z.of_nat d)
                ++ "."%char
                :: stripFraction
                     (padStart d (digits_of (Z.abs n mod 10 ^ Z.of_nat d)))))).
Proof.
  intros Hd. unfold formatFixed_bn. rewrite getMultiplier_Ok by lia.
  cbn [bindR]. cbv zeta.
  replace (d =? 0)%nat with false by (symmetry; apply Nat.eqb_neq; lia).
  replace (if n <? 0 then - n else n) with (Z.abs n)
    by (destruct (n <? 0) eqn:E;
        [apply Z.ltb_lt in E|apply Z.ltb_ge in E]; lia).
  unfold Decimal.signed. destruct (n <? 0); reflexivity.
Qed.

(** a canonical string is accepted, and the number it is converted to is
    written back as the string itself *)
Lemma formatFixed_bn_parseFixed_canonical d text :
  (0 < d <= 256)%nat ->
  Decimal.isCanonical d text = true ->
  exists n, parseFixed text d = Ok n /\ formatFixed_bn n d = Ok text.
Proof.
  intros Hd H.
  destruct (isCanonical_elim d text H)
    as (negative & whole & fraction & -> & Hw & Hf & Hlen & Hnw & Hnf & Hzero).
  assert (Hwne : whole <> []) by (destruct whole; [discriminate Hnw|discriminate]).
  set (padded := padEnd d fraction).
  assert (Hplen : List.length padded = d).
  { subst padded. unfold padEnd. rewrite length_app, repeat_length. lia. }
  assert (Hpd : forallb isDigit padded = true).
  { subst padded. unfold padEnd.
    now rewrite forallb_app, Hf, forallb_isDigit_zeros. }
  assert (Hpne : padded <> []).
  { intros E. rewrite E in Hplen. simpl in Hplen. lia. }
  assert (Hstrip : stripFraction padded = fraction)
    by (apply stripFraction_padEnd; exact Hnf).
  pose proof (parseFixed_printed negative whole padded d Hd Hw Hwne Hpd Hplen)
    as Hparse.
  rewrite Hstrip in Hparse. cbv zeta in Hparse.
  set (m := 10 ^ Z.of_nat d) in *.
  set (wei := value_of_digits whole * m + value_of_digits padded) in *.
  exists (if negative then - wei else wei). split; [exact Hparse|].
  destruct (value_of_digits_bounds _ Hw) as [Hwlo _].
  destruct (value_of_digits_bounds _ Hpd) as [Hplo Hphi].
  rewrite Hplen in Hphi. fold m in Hphi.
  assert (Hm : 0 < m) by (subst m; apply Z.pow_pos_nonneg; lia).
  assert (Hwei : 0 <= wei) by (subst wei; nia).
  assert (Hnonzero : negative = true -> 0 < wei).
  { intros Hneg. destruct (Z.eq_dec wei 0) as [E|E]; [|lia]. exfalso.
    assert (Hw0 : value_of_digits whole = 0) by (subst wei; nia).
    assert (Hp0 : value_of_digits padded = 0) by (subst wei; nia).
    apply (Hzero Hneg).
    - rewrite <- (digits_of_whole whole Hw Hnw), Hw0. reflexivity.
    - rewrite <- Hstrip, <- (padStart_digits_of padded Hpd Hpne), Hp0, Hplen.
      change (digits_of 0) with ["0"%char].
      unfold stripFraction, padStart.
      change ["0"%char] with (repeat "0"%char 1).
      rewrite <- repeat_app, trimTrailingZeros_zeros. reflexivity. }
  rewrite (formatFixed_bn_chars _ d Hd). fold m.
  assert (Habs : Z.abs (if negative then - wei else wei) = wei)
    by (destruct negative; lia).
  assert (Hsign : ((if negative then - wei else wei) <? 0) = negative).
  { destruct negative.
    - apply Z.ltb_lt. specialize (Hnonzero eq_refl). lia.
    - apply Z.ltb_ge. lia. }
  rewrite Habs, Hsign.
  replace (wei / m) with (value_of_digits whole)
    by (apply Z.div_unique with (value_of_digits padded); subst wei; lia).
  replace (wei mod m) with (value_of_digits padded)
    by (apply Z.mod_unique with (value_of_digits whole); subst wei; lia).
  rewrite (digits_of_whole whole Hw Hnw).
  rewrite <- Hplen at 1. rewrite (padStart_digits_of padded Hpd Hpne), Hstrip.
  reflexivity.
Qed.

(** what formatFixed writes is canonical *)
Lemma formatFixed_bn_isCanonical n d printed :
  (0 < d <= 256)%nat ->
  formatFixed_bn n d = Ok printed -> Decimal.isCanonical d printed = true.
Proof.
  intros Hd H. rewrite (formatFixed_bn_chars n d Hd) in H.
  injection H as <-.
  set (m := 10 ^ Z.of_nat d).
  assert (Hm : 0 < m) by (subst m; apply Z.pow_pos_nonneg; lia).
  assert (Hmod : 0 <= Z.abs n mod m < m) by (apply Z.mod_pos_bound; exact Hm).
  assert (Hdiv : 0 <= Z.abs n / m) by (apply Z.div_pos; lia).
  destruct (digits_of_spec _ Hdiv) as (Hw & Hwne & Hwv & _).
  destruct (digits_of_spec _ (proj1 Hmod)) as (Hf & Hfne & Hfv & Hflen).
  specialize (Hflen d (proj2 Hmod) (proj1 Hd)).
  set (padded := padStart d (digits_of (Z.abs n mod m))).
  assert (Hpd : forallb isDigit padded = true).
  { subst padded. unfold padStart.
    now rewrite forallb_app, forallb_isDigit_zeros, Hf. }
  assert (Hplen : List.length padded = d).
  { subst padded. unfold padStart. rewrite length_app, repeat_length. lia. }
  assert (Hpne : padded <> []).
  { intros E. rewrite E in Hplen. simpl in Hplen. lia. }
  apply isCanonical_intro.
  - exact Hw.
  - apply stripFraction_digits. exact Hpd.
  - pose proof (stripFraction_length padded Hpne). lia.
  - apply digits_of_noLeadingZero. exact Hdiv.
  - apply stripFraction_noFinalZero.
  - intros Hneg Hw0 Hf0. apply Z.ltb_lt in Hneg.
    apply (f_equal value_of_digits) in Hw0. rewrite Hwv in Hw0.
    change (value_of_digits ["0"%char]) with 0 in Hw0.
    pose proof (stripFraction_zero padded Hpd Hf0) as Hp0.
    subst padded. rewrite value_of_digits_padStart, Hfv in Hp0.
    pose proof (Z.div_mod (Z.abs n) m). lia.
Qed.

(** *** The number that parseFixed reads *)

Lemma read_digits cs :
  forall rest afterPoint numerator fractionDigits,
    forallb isDigit cs = true ->
    Decimal.read (cs ++ rest) afterPoint numerator fractionDigits
    = Decimal.read rest afterPoint
        (numerator * 10 ^ Z.of_nat (List.length cs) + value_of_digits cs)
        (if afterPoint then (fractionDigits + List.length cs)%nat
         else fractionDigits).
Proof.
  induction cs as [|c cs IH]; intros rest afterPoint numerator fractionDigits H.
  - simpl. change (value_of_digits []) with 0.
    rewrite Z.mul_1_r, Z.add_0_r, Nat.add_0_r.
    destruct afterPoint; reflexivity.
  - simpl in H. apply andb_true_iff in H as [Hc Hcs].
    change ((c :: cs) ++ rest) with (c :: (cs ++ rest)).
    cbn [Decimal.read]. rewrite Hc, (IH _ _ _ _ Hcs).
    rewrite value_of_digits_cons.
    change (List.length (c :: cs)) with (S (List.length cs)).
    rewrite Nat2Z.inj_succ, Z.pow_succ_r by lia.
    f_equal; [ring|].
    destruct afterPoint; [|reflexivity]. lia.
Qed.

Lemma read_whole whole :
  forallb isDigit whole = true ->
  Decimal.read whole false 0 0 = Some (value_of_digits whole, O).
Proof.
  intros H. rewrite <- (app_nil_r whole) at 1.
  rewrite (read_digits _ _ _ _ _ H). reflexivity.
Qed.

Lemma read_point whole fraction :
  forallb isDigit whole = true -> forallb isDigit fraction = true ->
  Decimal.read (whole ++ "."%char :: fraction) false 0 0
  = Some (value_of_digits whole * 10 ^ Z.of_nat (List.length fraction)
          + value_of_digits fraction, List.length fraction).
Proof.
  intros Hw Hf. rewrite (read_digits _ _ _ _ _ Hw).
  cbn [Decimal.read]. change (isDigit ".") with false. cbv iota.
  rewrite Ascii.eqb_refl. cbn [negb andb].
  rewrite <- (app_nil_r fraction) at 1.
  rewrite (read_digits _ _ _ _ _ Hf). reflexivity.
Qed.

Lemma split_dot_nonempty cs : split_dot cs <> [].
Proof.
  destruct cs as [|c cs]; [discriminate|]. simpl.
  destruct (c =? ".")%char; [discriminate|].
  destruct (split_dot cs); discriminate.
Qed.

(** a string of digits and points is split at its first point *)
Lemma split_dot_decimal cs :
  forallb isDecimalChar cs = true ->
  (forallb isDigit cs = true /\ split_dot cs = [cs])
  \/ exists whole rest,
      cs = whole ++ "."%char :: rest /\ forallb isDigit whole = true /\
      forallb isDecimalChar rest = true /\
      split_dot cs = whole :: split_dot rest.
Proof.
  induction cs as [|c cs IH]; [now left|]. intros H.
  simpl in H. apply andb_true_iff in H as [Hc Hcs].
  simpl. destruct (c =? ".")%char eqn:Hp.
  - apply Ascii.eqb_eq in Hp as ->. right. exists [], cs. auto.
  - unfold isDecimalChar in Hc. rewrite Hp, orb_false_r in Hc.
    destruct (IH Hcs) as [[Hd ->]|(whole & rest & -> & Hw & Hrest & ->)].
    + left. now rewrite Hc, Hd.
    + right. exists (c :: whole), rest. simpl. now rewrite Hc, Hw.
Qed.

Lemma value_of_digits_or_zero cs :
  value_of_digits match cs with [] => ["0"%char] | _ :: _ => cs end
  = value_of_digits cs.
Proof. destruct cs; reflexivity. Qed.

Lemma forallb_isDigit_or_zero cs :
  forallb isDigit cs = true ->
  forallb isDigit match cs with [] => ["0"%char] | _ :: _ => cs end = true.
Proof. destruct cs; [reflexivity|auto]. Qed.

Lemma value_of_digits_padEnd d cs :
  value_of_digits (padEnd d cs)
  = value_of_digits cs * 10 ^ Z.of_nat (d - List.length cs).
Proof.
  unfold padEnd.
  rewrite value_of_digits_app, value_of_digits_zeros, repeat_length. lia.
Qed.

(** the steps of parseFixed after the split, on a whole part and a
    fraction of digits *)
Lemma parseFixed_parts (negative : bool) whole fraction d n :
  forallb isDigit whole = true -> forallb isDigit fraction = true ->
  (let whole := match whole with [] => ["0"%char] | _ => whole end in
   let fraction := match fraction with [] => ["0"%char] | _ => fraction end in
   let fraction := trimTrailingZeros fraction in
   if (d <? List.length fraction)%nat
   then Throw (ArgumentError "fractional component exceeds decimals")
   else
     let fraction := match fraction with [] => ["0"%char] | _ => fraction end in
     let fraction := padEnd d fraction in
     let? wholeValue := from_chars whole in
     let? fractionValue := from_chars fraction in
     let wei := wholeValue * 10 ^ Z.of_nat d + fractionValue in
     Ok (if negative then - wei else wei)) = Ok n ->
  n * 10 ^ Z.of_nat (List.length fraction)
  = (let numerator :=
       value_of_digits whole * 10 ^ Z.of_nat (List.length fraction)
       + value_of_digits fraction in
     if negative then - numerator else numerator) * 10 ^ Z.of_nat d.
Proof.
  intros Hw Hf. cbv zeta.
  set (whole' := match whole with [] => ["0"%char] | _ => whole end).
  set (fraction' := match fraction with [] => ["0"%char] | _ => fraction end).
  assert (Hw' : forallb isDigit whole' = true)
    by (apply forallb_isDigit_or_zero; exact Hw).
  assert (Hwne : whole' <> []) by (subst whole'; destruct whole; discriminate).
  assert (Hwv : value_of_digits whole' = value_of_digits whole)
    by apply value_of_digits_or_zero.
  assert (Hf' : forallb isDigit fraction' = true)
    by (apply forallb_isDigit_or_zero; exact Hf).
  assert (Hfv : value_of_digits fraction' = value_of_digits fraction)
    by apply value_of_digits_or_zero.
  destruct (trimTrailingZeros_decompose fraction') as [j Hj].
  pose proof (trimTrailingZeros_digits _ Hf') as Ht.
  remember (trimTrailingZeros fraction') as trimmed eqn:Etrim.
  destruct (d <? List.length trimmed)%nat eqn:Hlen; [discriminate|].
  apply Nat.ltb_ge in Hlen.
  set (trimmed' := match trimmed with [] => ["0"%char] | _ => trimmed end).
  assert (Ht' : forallb isDigit trimmed' = true)
    by (apply forallb_isDigit_or_zero; exact Ht).
  assert (Hpd : forallb isDigit (padEnd d trimmed') = true).
  { unfold padEnd. now rewrite forallb_app, Ht', forallb_isDigit_zeros. }
  assert (Hpne : padEnd d trimmed' <> []).
  { unfold padEnd, trimmed'. destruct trimmed; discriminate. }
  rewrite (from_chars_digits _ Hw' Hwne), (from_chars_digits _ Hpd Hpne).
  cbn [bindR]. intros [= <-].
  rewrite Hwv, value_of_digits_padEnd.
  assert (Hfraction : value_of_digits fraction
                      = value_of_digits trimmed * 10 ^ Z.of_nat j).
  { rewrite <- Hfv, Hj, value_of_digits_app, value_of_digits_zeros,
      repeat_length. lia. }
  destruct trimmed as [|c t] eqn:Et.
  - subst trimmed'. change (value_of_digits []) with 0 in Hfraction.
    change (value_of_digits ["0"%char]) with 0.
    rewrite Hfraction. destruct negative; ring.
  - subst trimmed'. cbv iota. rewrite <- Et in *.
    assert (Hsame : fraction' = fraction).
    { subst fraction'. destruct fraction; [|reflexivity].
      rewrite Et in Etrim. discriminate Etrim. }
    assert (Hlength : List.length fraction = (List.length trimmed + j)%nat).
    { rewrite <- Hsame, Hj at 1. now rewrite length_app, repeat_length. }
    rewrite Hfraction, Hlength.
    remember (d - List.length trimmed)%nat as e eqn:He.
    assert (Hd : Z.of_nat d = Z.of_nat (List.length trimmed) + Z.of_nat e)
      by lia.
    rewrite Hd, Nat2Z.inj_add, !Z.pow_add_r by lia.
    destruct negative; ring.
Qed.

(** the number that parseFixed gives is the number that the string
    denotes, shifted by [decimals] digits *)
Lemma parseFixed_reads text d n :
  parseFixed text d = Ok n ->
  let cs := list_ascii_of_string text in
  let negative := startsWith "-" cs in
  let body := if negative then tl cs else cs in
  exists numerator fractionDigits,
    Decimal.read body false 0 0 = Some (numerator, fractionDigits) /\
    n * 10 ^ Z.of_nat fractionDigits
    = (if negative then - numerator else numerator) * 10 ^ Z.of_nat d.
Proof.
  unfold parseFixed, getMultiplier.
  destruct (d <=? 256)%nat; [|discriminate]. cbn [bindR]. cbv zeta.
  set (cs := list_ascii_of_string text).
  set (negative := startsWith "-" cs).
  set (body := if negative then tl cs else cs).
  destruct (forallb isDecimalChar body) eqn:Hdec; [|discriminate].
  cbn [negb orb].
  destruct (List.length body =? 0)%nat eqn:Hlen; [discriminate|].
  destruct (eqb_chars body ["."%char]) eqn:Hpoint; [discriminate|].
  destruct (split_dot_decimal body Hdec)
    as [[Hd Hsplit]|(whole & rest & Hbody & Hw & Hrest & Hsplit)].
  - rewrite Hsplit. change (2 <? List.length [body])%nat with false.
    cbn [nth]. intros H.
    apply (parseFixed_parts negative body [] d n Hd eq_refl) in H.
    exists (value_of_digits body), O. split; [apply read_whole; exact Hd|].
    cbv zeta in H. change (List.length (A := ascii) []) with O in H.
    change (value_of_digits []) with 0 in H.
    rewrite H. change (10 ^ Z.of_nat 0) with 1. destruct negative; ring.
  - rewrite Hsplit.
    destruct (split_dot_decimal rest Hrest)
      as [[Hf Hsplit']|(whole' & rest' & _ & _ & _ & Hsplit')];
      rewrite Hsplit'.
    + change (2 <? List.length [whole; rest])%nat with false.
      cbn [nth]. intros H.
      apply (parseFixed_parts negative whole rest d n Hw Hf) in H.
      rewrite Hbody, (read_point _ _ Hw Hf).
      eexists _, _. split; [reflexivity|exact H].
    + pose proof (split_dot_nonempty rest') as Hne.
      destruct (split_dot rest'); [contradiction|]. discriminate.
Qed.

Lemma parseFixed_value text d n :
  parseFixed text d = Ok n ->
  exists number,
    Decimal.value text = Some number /\
    Qeq (inject_Z n) (Qmult number (inject_Z (10 ^ Z.of_nat d))).
Proof.
  intros H. destruct (parseFixed_reads text d n H)
    as (numerator & fractionDigits & Hread & Hn).
  unfold Decimal.value. rewrite Hread. eexists. split; [reflexivity|].
  unfold Qeq, Qmult, inject_Z. cbn [Qnum Qden].
  rewrite Pos.mul_1_r, Z2Pos.id by (apply Z.pow_pos_nonneg; lia).
  rewrite Hn. ring.
Qed.

(** *** The round trip of the BPT amount *)

(** C7, as stated, fails: the BPT amount "10" is accepted at 18
    decimals, and the string that comes back from its fixed-point
    representation is "10.0", not the original. *)
Lemma C7_counterexample :
  parseFixed "10" 18 = Ok 10000000000000000000
  /\ formatFixed (toString 10000000000000000000) 18 = Ok "10.0"%string
  /\ "10.0"%string <> "10"%string.
Proof. repeat apply conj; [vm_compute; reflexivity..|discriminate]. Qed.

(** C7, amended: a decimal-string BPT amount that parseFixed accepts at
    18 decimals, converted to its fixed-point representation as
    queryExit does and written back by formatFixed at 18 decimals,
    yields a decimal string that denotes the same number as the
    original, the fixed-point integer being that number times 10^18.
    The string that comes back parses to the same fixed-point integer,
    and it is the original string itself exactly when the original is
    written in canonical form: an optional minus sign (none on zero), a
    whole part without leading zeros, a point, and a fraction of 1 to 18
    digits without final zeros. *)
Theorem C7_bpt_amount_round_trip :
  forall (bptIn : string) (evmBptIn : Z),
    parseFixed bptIn 18 = Ok evmBptIn ->
    exists (printed : string) (original back : Q),
      formatFixed (toString evmBptIn) 18 = Ok printed /\
      Decimal.value bptIn = Some original /\
      (inject_Z evmBptIn == original * inject_Z (10 ^ 18))%Q /\
      Decimal.value printed = Some back /\
      (back == original)%Q /\
      parseFixed printed 18 = Ok evmBptIn /\
      (printed = bptIn <-> Decimal.isCanonical 18 bptIn = true).
Proof.
  intros bptIn evmBptIn Hparse.
  destruct (parseFixed_formatFixed_bn evmBptIn 18)
    as (printed & Hprint & Hback); [lia|].
  destruct (parseFixed_value _ _ _ Hparse) as (original & Horiginal & Hscaled).
  destruct (parseFixed_value _ _ _ Hback) as (back & Hvalue & Hscaled').
  change (Z.of_nat 18) with 18 in Hscaled, Hscaled'.
  exists printed, original, back. rewrite formatFixed_toString.
  repeat apply conj; try assumption.
  - apply (Qmult_inj_r _ _ (inject_Z (10 ^ 18))); [discriminate|].
    now rewrite <- Hscaled, <- Hscaled'.
  - intros <-. apply (formatFixed_bn_isCanonical evmBptIn); [lia|exact Hprint].
  - intros Hcanonical.
    destruct (formatFixed_bn_parseFixed_canonical 18 bptIn) as (n & Hn & Hwritten);
      [lia|exact Hcanonical|].
    congruence.
Qed.

End FixedPoint.

Lemma C7_witness :
  Ethers.parseFixed "12.50" 18 = Ok 12500000000000000000
  /\ exists (printed : string) (original back : Q),
      Ethers.formatFixed (Ethers.toString 12500000000000000000) 18 = Ok printed /\
      Decimal.value "12.50" = Some original /\
      (inject_Z 12500000000000000000 == original * inject_Z (10 ^ 18))%Q /\
      Decimal.value printed = Some back /\
      (back == original)%Q /\
      Ethers.parseFixed printed 18 = Ok 12500000000000000000 /\
      (printed = "12.50"%string <-> Decimal.isCanonical 18 "12.50" = true).
Proof.
  assert (E : Ethers.parseFixed "12.50" 18 = Ok 12500000000000000000).
  { vm_compute. reflexivity. }
  split; [exact E|].
  exact (C7_bpt_amount_round_trip "12.50" 12500000000000000000 E).
Defined.

(** * Further properties of the handler *)

(** a library call that threw has thrown an argument error *)
Ltac library_error :=
  match goal with
  | E : ?call = Throw ?e |- context [isArgumentError ?e] =>
      let L := fresh in
      assert (L : throwsArgumentErrors call) by eauto with throws;
      rewrite (L _ E)
  end.

(** ** The amounts maps *)

(** what a returning [getSingleAmountOut] was given *)
Lemma getSingleAmountOut_returns amounts index tokenOut m :
  getSingleAmountOut amounts index tokenOut = Ok m ->
  exists i raw amount,
    index = Some i /\ amounts !! i = Some raw /\
    Ethers.formatFixed raw (TokenInfo.decimals tokenOut) = Ok amount /\
    m = {[ TokenInfo.address tokenOut := amount ]}.
Proof.
  unfold getSingleAmountOut. cbv zeta.
  destruct index as [i|]; simpl.
  - destruct (amounts !! i) as [raw|] eqn:Hraw.
    + destruct (Ethers.formatFixed _ _) as [amount|] eqn:Hf; simpl; [|discriminate].
      intros [= <-]. eauto 10.
    + destruct (Ethers.getMultiplier _); discriminate.
  - destruct (Ethers.getMultiplier _); discriminate.
Qed.

(** every entry of the map comes from an expected amount and a token of
    the pool *)
Lemma getAmountsOut_forEach_sound all tokensOut :
  forall expected i acc m,
    getAmountsOut_forEach all tokensOut i expected acc = Ok m ->
    forall key amount,
      m !! key = Some amount ->
      acc !! key = Some amount \/
      exists j raw address token,
        expected !! j = Some raw /\
        tokensOut !! (i + j)%nat = Some address /\
        In token all /\
        isSameAddress (PoolToken.address token) address = Ok true /\
        Ethers.getAddress (PoolToken.address token) = Ok key /\
        Ethers.formatFixed raw (default 18%nat (PoolToken.decimals token)) = Ok amount.
Proof.
  induction expected as [|raw rest IH]; intros i acc m H key amount Hkey; simpl in H.
  - injection H as <-. auto.
  - destruct (tokensOut !! i) as [address|] eqn:Haddr.
    + destruct (findR _ all) as [[token|]|] eqn:Hfind; simpl in H; [| |discriminate].
      * destruct (Ethers.getAddress (PoolToken.address token)) as [real|] eqn:Hreal;
          simpl in H; [|discriminate].
        destruct (Ethers.formatFixed raw _) as [scaled|] eqn:Hscaled;
          simpl in H; [|discriminate].
        apply findR_Some in Hfind as [Hin Hsame].
        destruct (IH _ _ _ H key amount Hkey) as [Hacc|(j & raw' & a' & t' & Hj & Ht & Hrest)].
        -- destruct (decide (real = key)) as [->|Hne].
           ++ rewrite lookup_insert_eq in Hacc. injection Hacc as <-.
              right. exists O, raw, address, token.
              rewrite Nat.add_0_r. repeat split; auto.
           ++ rewrite lookup_insert_ne in Hacc by exact Hne. auto.
        -- right. exists (S j), raw', a', t'.
           replace (i + S j)%nat with (S i + j)%nat by lia. auto.
      * destruct (IH _ _ _ H key amount Hkey) as [Hacc|(j & raw' & a' & t' & Hj & Ht & Hrest)];
          [auto|].
        right. exists (S j), raw', a', t'.
        replace (i + S j)%nat with (S i + j)%nat by lia. auto.
    + simpl in H.
      destruct (IH _ _ _ H key amount Hkey) as [Hacc|(j & raw' & a' & t' & Hj & Ht & Hrest)];
        [auto|].
      right. exists (S j), raw', a', t'.
      replace (i + S j)%nat with (S i + j)%nat by lia. auto.
Qed.

(** one entry at most for each expected amount *)
Lemma getAmountsOut_forEach_size all tokensOut :
  forall expected i acc m,
    getAmountsOut_forEach all tokensOut i expected acc = Ok m ->
    (size m <= size acc + List.length expected)%nat.
Proof.
  induction expected as [|raw rest IH]; intros i acc m H; simpl in H.
  - injection H as <-. lia.
  - destruct (match tokensOut !! i with Some _ => _ | None => _ end) as [[token|]|];
      simpl in H; [| |discriminate].
    + destruct (Ethers.getAddress _) as [real|]; simpl in H; [|discriminate].
      destruct (Ethers.formatFixed raw _) as [scaled|]; simpl in H; [|discriminate].
      apply IH in H. simpl.
      assert (size (<[real:=scaled]> acc) <= S (size acc))%nat; [|lia].
      destruct (acc !! real) eqn:Hl.
      * rewrite map_size_insert_Some by eauto. lia.
      * rewrite map_size_insert_None by exact Hl. lia.
    + apply IH in H. simpl. lia.
Qed.

(** an entry, once inserted, stays *)
Lemma getAmountsOut_forEach_keeps all tokensOut :
  forall expected i acc m,
    getAmountsOut_forEach all tokensOut i expected acc = Ok m ->
    dom acc ⊆ dom m.
Proof.
  induction expected as [|raw rest IH]; intros i acc m H; simpl in H.
  - injection H as <-. reflexivity.
  - destruct (match tokensOut !! i with Some _ => _ | None => _ end) as [[token|]|];
      simpl in H; [| |discriminate].
    + destruct (Ethers.getAddress _) as [real|]; simpl in H; [|discriminate].
      destruct (Ethers.formatFixed raw _) as [scaled|]; simpl in H; [|discriminate].
      apply IH in H. rewrite dom_insert in H. set_solver.
    + now apply IH in H.
Qed.

(** every reported output that has a token of the pool gets an entry *)
Lemma getAmountsOut_forEach_complete all tokensOut :
  forall expected i acc m,
    getAmountsOut_forEach all tokensOut i expected acc = Ok m ->
    forall j raw address token,
      expected !! j = Some raw ->
      tokensOut !! (i + j)%nat = Some address ->
      In token all ->
      isSameAddress (PoolToken.address token) address = Ok true ->
      exists key, Ethers.getAddress address = Ok key /\ key ∈ dom m.
Proof.
  induction expected as [|raw0 rest IH]; intros i acc m H j raw address token Hj Haddr Hin Hsame;
    [discriminate|].
  simpl in H. destruct j as [|j].
  - rewrite Nat.add_0_r in Haddr. rewrite Haddr in H.
    destruct (findR _ all) as [[found|]|] eqn:Hfind; simpl in H; [| |discriminate].
    + destruct (Ethers.getAddress (PoolToken.address found)) as [real|] eqn:Hreal;
        simpl in H; [|discriminate].
      destruct (Ethers.formatFixed raw0 _) as [scaled|]; simpl in H; [|discriminate].
      apply findR_Some in Hfind as [_ Hfound].
      apply isSameAddress_true in Hfound as (c & Hc1 & Hc2).
      exists c. split; [exact Hc2|].
      apply getAmountsOut_forEach_keeps in H. apply H.
      assert (real = c) as -> by congruence.
      rewrite dom_insert. set_solver.
    + rewrite (findR_None _ _ Hfind token Hin) in Hsame. discriminate.
  - replace (i + S j)%nat with (S i + j)%nat in Haddr by lia.
    simpl in Hj.
    destruct (match tokensOut !! i with Some _ => _ | None => _ end) as [[found|]|];
      simpl in H; [| |discriminate].
    + destruct (Ethers.getAddress _) as [real|]; simpl in H; [|discriminate].
      destruct (Ethers.formatFixed raw0 _) as [scaled|]; simpl in H; [|discriminate].
      exact (IH _ _ _ H j raw address token Hj Haddr Hin Hsame).
    + exact (IH _ _ _ H j raw address token Hj Haddr Hin Hsame).
Qed.

Section Extras.

Variable NATIVE_ASSET_ADDRESS : string.
Variable flatTokenTree : Pool.t -> list PoolToken.t.

(** ** exit *)

(** X1: when the query that [exit] re-runs returns, [exit] makes the
    query's calls followed by exactly one sendTransaction, carrying the
    [to] and [data] of the pending result; it returns what the
    transaction service returns, or throws what it throws, and leaves the
    pending result in place. *)
Theorem X1_exit_submits_pending_result env params this out this' evs :
  queryExit NATIVE_ASSET_ADDRESS flatTokenTree env params this = (Ok out, this', evs) ->
  exists res,
    lastExitRes this' = Some res /\
    exit NATIVE_ASSET_ADDRESS flatTokenTree env params this
    = (sendTransaction env (signer params) (to res) (data res), this',
       evs ++ [SendTransaction (to res) (data res)]).
Proof.
  intros H.
  destruct (queryExit_returns _ _ _ _ _ _ _ _ H)
    as (? & ? & ? & ? & ? & ? & ? & ? & res & ? & ? & _ & _ & _ & _ & _ & _ & _
        & Hres & _).
  exists res. split; [exact Hres|].
  unfold exit, bind, getThis, call. rewrite H, Hres. reflexivity.
Qed.

(** X2: when the query that [exit] re-runs throws, [exit] throws the same
    error, stops where the query stopped and submits nothing, also when
    the instance still holds the result of an earlier query. *)
Theorem X2_exit_propagates_query_error env params this e this' evs :
  queryExit NATIVE_ASSET_ADDRESS flatTokenTree env params this = (Throw e, this', evs) ->
  exit NATIVE_ASSET_ADDRESS flatTokenTree env params this = (Throw e, this', evs) /\
  forallb (fun ev => negb (isSendTransaction ev)) evs = true.
Proof.
  intros H. split.
  - unfold exit, bind. now rewrite H.
  - now destruct (queryExit_frame _ _ _ _ _ _ _ _ H).
Qed.

(** ** The calls of queryExit *)

(** X3: queryExit calls the signer, the pool registry, the transaction
    builder and the price-impact calculator in this order, each at most
    once: the calls of a run are always a prefix of that sequence; a
    query that returns has made all four calls. *)
Theorem X3_call_order env params this r this' evs :
  queryExit NATIVE_ASSET_ADDRESS flatTokenTree env params this = (r, this', evs) ->
  collaboratorCalls evs `prefix_of` [ToSigner; ToRegistry; ToBuilder; ToPriceImpact]
  /\ (forall out, r = Ok out ->
        collaboratorCalls evs = [ToSigner; ToRegistry; ToBuilder; ToPriceImpact]).
Proof.
  intros H. run_handler H; (split; [|try discriminate; reflexivity]);
    cbn; try (eexists; reflexivity).
Qed.

(** X4: whenever queryExit calls buildExitExactBPTIn, the exiter is the
    signer's address, the BPT amount is the 18-decimal fixed-point form of
    [bptIn] printed as an integer, the slippage is the string that
    [slippageBsp.toString()] gives, whatever number [slippageBsp] is,
    the unwrap flag tells whether the first output token is the native
    asset, and the single-token address is the lower-cased SOR address of
    that token when exactly one output is requested and absent
    otherwise. *)
Theorem X4_build_arguments env params this r this' evs exiter evmBptIn slippage unwrap single :
  queryExit NATIVE_ASSET_ADDRESS flatTokenTree env params this = (r, this', evs) ->
  In (BuildExitExactBPTIn exiter evmBptIn slippage unwrap single) evs ->
  exists first rest tokenOut parsed sor,
    amountsOut params = first :: rest /\
    selectByAddress (tokenInfo params) (AmountOut.address first) = Ok (Some tokenOut) /\
    Signer.getAddress (signer params) = Ok exiter /\
    Ethers.parseFixed (bptIn params) 18 = Ok parsed /\
    evmBptIn = Ethers.toString parsed /\
    slippage = JsNumber.toString (slippageBsp params) /\
    isSameAddress (TokenInfo.address tokenOut) NATIVE_ASSET_ADDRESS = Ok unwrap /\
    formatAddressForSor NATIVE_ASSET_ADDRESS (TokenInfo.address tokenOut) = Ok sor /\
    single = match rest with
             | [] => Some (Ethers.toLowerCase sor)
             | _ :: _ => None
             end.
Proof.
  intros H Hin. unfold_handler H.
  destruct (amountsOut params) as [|first rest] eqn:Hout.
  - repeat step H; project_fields; simplify_eq; simpl in Hin; intuition discriminate.
  - repeat step H; project_fields; simplify_eq; simpl in Hin;
      repeat match goal with
             | Hx : _ \/ _ |- _ => destruct Hx as [Hx|Hx]; try discriminate Hx
             | Hx : False |- _ => destruct Hx
             end;
      simplify_eq;
      exists first, rest; repeat eexists; try eassumption; try reflexivity;
      destruct rest; simpl in *; congruence.
Qed.

(** X5: the reports to the exception sink are the errors of the SDK:
    every error that queryExit captures was thrown, during the call, by
    pools.find, by buildExitExactBPTIn or by calcPriceImpact. *)
Theorem X5_captured_errors_come_from_the_sdk env params this r this' evs error :
  queryExit NATIVE_ASSET_ADDRESS flatTokenTree env params this = (r, this', evs) ->
  In (CaptureBalancerException error) evs ->
  pools_find env (Pool.id (pool this)) = Throw error
  \/ exists sdkPool,
      pools_find env (Pool.id (pool this)) = Ok (Some sdkPool) /\
      ((exists exiter evmBptIn slippage unwrap single,
           In (BuildExitExactBPTIn exiter evmBptIn slippage unwrap single) evs /\
           buildExitExactBPTIn sdkPool exiter evmBptIn slippage unwrap single
           = Throw error)
       \/ (exists amounts evmBptIn isJoin,
              In (CalcPriceImpact amounts evmBptIn isJoin) evs /\
              calcPriceImpact sdkPool amounts evmBptIn isJoin = Throw error)).
Proof.
  intros H Hin. run_handler H; simpl in Hin;
    repeat match goal with
           | Hx : _ \/ _ |- _ => destruct Hx as [Hx|Hx]; try discriminate Hx
           | Hx : False |- _ => destruct Hx
           end;
    simplify_eq;
    try (left; reflexivity);
    right; eexists; (split; [reflexivity|]);
    first [ left; repeat eexists; [|eassumption]; simpl; auto 10
          | right; repeat eexists; [|eassumption]; simpl; auto 10 ].
Qed.

(** ** The errors of queryExit *)

(** X6: what queryExit throws is the signer's rejection, the
    pool-not-found error for the handler's pool id, a type error when no
    output is requested, the token-not-found error for the first
    requested output, an argument error of the address and fixed-point
    utilities, the construction error or the price-impact error. *)
Theorem X6_error_taxonomy env params this e this' evs :
  queryExit NATIVE_ASSET_ADDRESS flatTokenTree env params this = (Throw e, this', evs) ->
  Signer.getAddress (signer params) = Throw e
  \/ e = FailedToFindPool (Pool.id (pool this))
  \/ (amountsOut params = [] /\ exists message, e = TypeError message)
  \/ (exists first rest,
         amountsOut params = first :: rest /\
         e = CouldNotFindExitToken (AmountOut.address first)
                                   (map fst (tokenInfo params)))
  \/ isArgumentError e = true
  \/ e = FailedToConstructExit
  \/ e = FailedToCalculatePriceImpact.
Proof.
  intros H. unfold_handler H.
  destruct (amountsOut params) as [|first rest] eqn:Hout;
    repeat step H; project_fields; simplify_eq;
    try (left; reflexivity);
    try (right; left; reflexivity);
    try (right; right; left; split; [reflexivity|eexists; reflexivity]);
    try (right; right; right; left; eexists _, _; split; reflexivity);
    try (right; right; right; right; right; left; reflexivity);
    try (right; right; right; right; right; right; reflexivity);
    right; right; right; right; left; library_error; reflexivity.
Qed.

(** X7: when calcPriceImpact throws, the error is captured and queryExit
    fails with the price-impact error.  The calculator had been called on
    the BPT amount handed to the builder in the same call, with the join
    flag false, and on the expected amounts of the result that is pending
    afterwards: that result is the one the builder returned in this call,
    and, when the builder threw, the one an earlier query had left. *)
Theorem X7_price_impact_failure env params this r this' evs sdkPool amounts evmBptIn isJoin error :
  queryExit NATIVE_ASSET_ADDRESS flatTokenTree env params this = (r, this', evs) ->
  pools_find env (Pool.id (pool this)) = Ok (Some sdkPool) ->
  In (CalcPriceImpact amounts evmBptIn isJoin) evs ->
  calcPriceImpact sdkPool amounts evmBptIn isJoin = Throw error ->
  r = Throw FailedToCalculatePriceImpact /\
  In (CaptureBalancerException error) evs /\
  exists exiter slippage unwrap single res,
    In (BuildExitExactBPTIn exiter evmBptIn slippage unwrap single) evs /\
    lastExitRes this' = Some res /\
    amounts = expectedAmountsOut res /\
    isJoin = false /\
    match buildExitExactBPTIn sdkPool exiter evmBptIn slippage unwrap single with
    | Ok built => res = built
    | Throw _ => lastExitRes this = Some res /\ this' = this
    end.
Proof.
  intros H Hfind Hin Hthrows. unfold_handler H. rewrite Hfind in H.
  cbv beta iota zeta in H.
  repeat step H; project_fields; simplify_eq; simpl in Hin;
    repeat match goal with
           | Hx : _ \/ _ |- _ => destruct Hx as [Hx|Hx]; try discriminate Hx
           | Hx : False |- _ => destruct Hx
           end;
    simplify_eq; try congruence;
    match goal with
    | Hc : calcPriceImpact _ _ _ _ = Throw ?e0 |- _ =>
        rewrite Hc in Hthrows; injection Hthrows as ->
    end;
    (split; [reflexivity|]); (split; [simpl; eauto 10|]);
    match goal with
    | Hb : buildExitExactBPTIn _ ?a ?b ?c ?d ?e = _ |- _ =>
        exists a, c, d, e; eexists;
        rewrite Hb; simpl; repeat apply conj; eauto 10
    end.
Qed.

(** X8: with an empty list of requested outputs queryExit never returns:
    it fails before the builder is called and leaves the instance as it
    was, with a type error once the signer and the pool are resolved. *)
Theorem X8_no_requested_output env params this r this' evs :
  amountsOut params = [] ->
  queryExit NATIVE_ASSET_ADDRESS flatTokenTree env params this = (r, this', evs) ->
  (exists e, r = Throw e) /\
  (forall exiter sdkPool,
      Signer.getAddress (signer params) = Ok exiter ->
      pools_find env (Pool.id (pool this)) = Ok (Some sdkPool) ->
      exists message, r = Throw (TypeError message)) /\
  forallb (fun ev => negb (isBuildExitExactBPTIn ev)) evs = true /\
  this' = this.
Proof.
  intros Hout H. unfold_handler H. rewrite Hout in H.
  repeat step H; project_fields; simplify_eq;
    repeat split; try reflexivity; try (eexists; reflexivity);
    intros; try congruence; eexists; reflexivity.
Qed.

(** X9: a BPT amount that parseFixed rejects at 18 decimals makes
    queryExit fail before the builder is called, leaving the instance as
    it was; once the signer, the pool and the output token are resolved
    the error is the one parseFixed threw. *)
Theorem X9_rejected_bpt_amount env params this r this' evs error :
  Ethers.parseFixed (bptIn params) 18 = Throw error ->
  queryExit NATIVE_ASSET_ADDRESS flatTokenTree env params this = (r, this', evs) ->
  (exists e, r = Throw e) /\
  (forall exiter sdkPool first rest tokenOut,
      Signer.getAddress (signer params) = Ok exiter ->
      pools_find env (Pool.id (pool this)) = Ok (Some sdkPool) ->
      amountsOut params = first :: rest ->
      selectByAddress (tokenInfo params) (AmountOut.address first) = Ok (Some tokenOut) ->
      r = Throw error) /\
  forallb (fun ev => negb (isBuildExitExactBPTIn ev)) evs = true /\
  this' = this.
Proof.
  intros Hparse H. unfold_handler H. rewrite Hparse in H.
  repeat step H; project_fields; simplify_eq;
    repeat split; try reflexivity; try (eexists; reflexivity);
    intros; congruence.
Qed.

(** ** The pending result *)

(** X10: queryExit either leaves the instance as it was, or the builder
    returned during the call and the pending result is exactly what it
    returned; the pool of the instance is never replaced. *)
Theorem X10_pending_result_frame env params this r this' evs :
  queryExit NATIVE_ASSET_ADDRESS flatTokenTree env params this = (r, this', evs) ->
  this' = this
  \/ exists sdkPool exiter evmBptIn slippage unwrap single res,
      pools_find env (Pool.id (pool this)) = Ok (Some sdkPool) /\
      In (BuildExitExactBPTIn exiter evmBptIn slippage unwrap single) evs /\
      buildExitExactBPTIn sdkPool exiter evmBptIn slippage unwrap single = Ok res /\
      this' = {| pool := pool this; lastExitRes := Some res |}.
Proof.
  intros H. run_handler H; try (left; reflexivity);
    right; repeat eexists; try eassumption; simpl; auto 10.
Qed.

(** X11: with a builder that does not throw, what queryExit returns and
    the calls it makes do not depend on the result pending from an
    earlier query, and once the builder was called the two instances end
    up holding the same result. *)
Theorem X11_pending_result_overwritten env params this1 this2 sdkPool :
  pool this1 = pool this2 ->
  pools_find env (Pool.id (pool this1)) = Ok (Some sdkPool) ->
  (forall exiter evmBptIn slippage unwrap single error,
      buildExitExactBPTIn sdkPool exiter evmBptIn slippage unwrap single
      <> Throw error) ->
  forall r1 r2 t1 t2 evs1 evs2,
  queryExit NATIVE_ASSET_ADDRESS flatTokenTree env params this1 = (r1, t1, evs1) ->
  queryExit NATIVE_ASSET_ADDRESS flatTokenTree env params this2 = (r2, t2, evs2) ->
  r1 = r2 /\ evs1 = evs2 /\
  (existsb isBuildExitExactBPTIn evs1 = true -> t1 = t2).
Proof.
  intros Hpool Hfind Hbuild r1 r2 t1 t2 evs1 evs2 H1 H2.
  unfold_handler H1. unfold_handler H2.
  rewrite <- Hpool in H2. rewrite Hfind in H1, H2.
  cbv beta iota zeta in H1, H2.
  repeat (step H1; cbv beta iota zeta in H2);
    project_fields; simplify_eq;
    try (exfalso; eapply Hbuild; eassumption);
    try rewrite Hpool in *;
    repeat step H2; project_fields; simplify_eq;
    repeat split; try reflexivity; try discriminate; try congruence.
  all: intros _; destruct this1, this2; simpl in *; congruence.
Qed.

(** ** What a returning query computed *)

(** X12: a query that returns has called calcPriceImpact last, on the
    expected amounts of the pending result, the fixed-point BPT amount and
    the join flag false; the calculator returned a non-empty string, and
    the price impact returned is the number that [Number] converts from
    that string formatted at 18 decimals. *)
Theorem X12_price_impact_of_pending_result env params this out this' evs :
  queryExit NATIVE_ASSET_ADDRESS flatTokenTree env params this = (Ok out, this', evs) ->
  exists res parsed sdkPool impact printed,
    lastExitRes this' = Some res /\
    Ethers.parseFixed (bptIn params) 18 = Ok parsed /\
    pools_find env (Pool.id (pool this)) = Ok (Some sdkPool) /\
    last evs = Some (CalcPriceImpact (expectedAmountsOut res) (Ethers.toString parsed) false) /\
    calcPriceImpact sdkPool (expectedAmountsOut res) (Ethers.toString parsed) false = Ok impact /\
    impact <> ""%string /\
    Ethers.formatFixed impact 18 = Ok printed /\
    QueryOutput.priceImpact out = Number printed.
Proof.
  intros H. run_handler H; repeat eexists; try eassumption; try reflexivity; discriminate.
Qed.

(** X13: for a single-output exit that returns, the one amount of the
    map is the expected amount found at the position of the output
    token's SOR address among the assets of the exit request, the pool's
    own address removed, formatted at the decimals of the token-map
    entry. *)
Theorem X13_single_output_amount env params this out this' evs first :
  amountsOut params = [first] ->
  queryExit NATIVE_ASSET_ADDRESS flatTokenTree env params this = (Ok out, this', evs) ->
  exists tokenOut res tokensOut sor i raw amount,
    selectByAddress (tokenInfo params) (AmountOut.address first) = Ok (Some tokenOut) /\
    lastExitRes this' = Some res /\
    removeAddress (Pool.address (pool this))
      (assets (exitPoolRequest (attributes res))) = Ok tokensOut /\
    formatAddressForSor NATIVE_ASSET_ADDRESS (TokenInfo.address tokenOut) = Ok sor /\
    indexOfAddress tokensOut sor = Ok (Some i) /\
    expectedAmountsOut res !! i = Some raw /\
    Ethers.formatFixed raw (TokenInfo.decimals tokenOut) = Ok amount /\
    QueryOutput.amountsOut out = {[ TokenInfo.address tokenOut := amount ]}.
Proof.
  intros Hout H.
  destruct (queryExit_returns _ _ _ _ _ _ _ _ H)
    as (exiter & sdkPool & first' & rest & tokenOut & parsed & sor & unwrap
        & res & tokensOut & impact & _ & _ & Hfirst & Hsel & _ & Hsor & _ & Hres
        & Hrem & _ & _ & _ & Hbranch).
  rewrite Hout in Hfirst, Hbranch. simplify_eq. simpl in Hbranch.
  destruct Hbranch as (index & Hindex & Hsingle).
  apply getSingleAmountOut_returns in Hsingle as (i & raw & amount & -> & Hraw & Hf & Hm).
  exists tokenOut, res, tokensOut, sor, i, raw, amount. repeat split; assumption.
Qed.

(** X14: for a multi-output exit that returns, the amounts map has at
    most one entry for each expected amount, and every entry is keyed by
    the canonical address of a token of the pool's token tree that is the
    same address as the asset at some position of the exit request, and
    holds the expected amount at that position, formatted at the token's
    decimals, 18 when the token has none. *)
Theorem X14_multi_output_entries env params this out this' evs :
  (1 < List.length (amountsOut params))%nat ->
  queryExit NATIVE_ASSET_ADDRESS flatTokenTree env params this = (Ok out, this', evs) ->
  exists res tokensOut,
    lastExitRes this' = Some res /\
    removeAddress (Pool.address (pool this))
      (assets (exitPoolRequest (attributes res))) = Ok tokensOut /\
    (size (QueryOutput.amountsOut out) <= List.length (expectedAmountsOut res))%nat /\
    forall key amount,
      QueryOutput.amountsOut out !! key = Some amount ->
      exists j raw address token,
        expectedAmountsOut res !! j = Some raw /\
        tokensOut !! j = Some address /\
        In token (flatTokenTree (pool this)) /\
        isSameAddress (PoolToken.address token) address = Ok true /\
        Ethers.getAddress (PoolToken.address token) = Ok key /\
        Ethers.formatFixed raw (default 18%nat (PoolToken.decimals token)) = Ok amount.
Proof.
  intros Hmulti H.
  destruct (queryExit_returns _ _ _ _ _ _ _ _ H)
    as (exiter & sdkPool & first & rest & tokenOut & parsed & sor & unwrap
        & res & tokensOut & impact & _ & _ & _ & _ & _ & _ & _ & Hres
        & Hrem & _ & _ & _ & Hbranch).
  replace (List.length (amountsOut params) =? 1)%nat with false in Hbranch
    by (symmetry; apply Nat.eqb_neq; lia).
  exists res, tokensOut. repeat split; auto.
  - apply getAmountsOut_forEach_size in Hbranch. rewrite map_size_empty in Hbranch. lia.
  - intros key amount Hkey.
    destruct (getAmountsOut_forEach_sound _ _ _ _ _ _ Hbranch key amount Hkey)
      as [Hempty|Hfound].
    + rewrite lookup_empty in Hempty. discriminate.
    + exact Hfound.
Qed.

(** X15: for a multi-output exit that returns, every asset of the exit
    request that has an expected amount and is the same address as a
    token of the pool's token tree has an entry in the amounts map, under
    its canonical address. *)
Theorem X15_multi_output_matched_assets env params this out this' evs res tokensOut j raw address token :
  (1 < List.length (amountsOut params))%nat ->
  queryExit NATIVE_ASSET_ADDRESS flatTokenTree env params this = (Ok out, this', evs) ->
  lastExitRes this' = Some res ->
  removeAddress (Pool.address (pool this))
    (assets (exitPoolRequest (attributes res))) = Ok tokensOut ->
  expectedAmountsOut res !! j = Some raw ->
  tokensOut !! j = Some address ->
  In token (flatTokenTree (pool this)) ->
  isSameAddress (PoolToken.address token) address = Ok true ->
  exists key,
    Ethers.getAddress address = Ok key /\
    is_Some (QueryOutput.amountsOut out !! key).
Proof.
  intros Hmulti H Hres Hrem Hj Haddr Hin Hsame.
  destruct (queryExit_returns _ _ _ _ _ _ _ _ H)
    as (exiter & sdkPool & first & rest & tokenOut & parsed & sor & unwrap
        & res' & tokensOut' & impact & _ & _ & _ & _ & _ & _ & _ & Hres'
        & Hrem' & _ & _ & _ & Hbranch).
  assert (res' = res) as -> by congruence.
  assert (tokensOut' = tokensOut) as -> by congruence.
  replace (List.length (amountsOut params) =? 1)%nat with false in Hbranch
    by (symmetry; apply Nat.eqb_neq; lia).
  destruct (getAmountsOut_forEach_complete _ _ _ _ _ _ Hbranch j raw address token
              Hj Haddr Hin Hsame) as (key & Hkey & Hdom).
  exists key. split; [exact Hkey|]. now apply elem_of_dom.
Qed.

(** X16: of the requested outputs queryExit reads only the address of the
    first one and whether there is exactly one: two lists that agree on
    both give the same run, whatever amounts they carry. *)
Theorem X16_requested_amounts_not_read env params this outs1 outs2 :
  AmountOut.address <$> head outs1 = AmountOut.address <$> head outs2 ->
  (List.length outs1 =? 1)%nat = (List.length outs2 =? 1)%nat ->
  queryExit NATIVE_ASSET_ADDRESS flatTokenTree env (withAmountsOut params outs1) this
  = queryExit NATIVE_ASSET_ADDRESS flatTokenTree env (withAmountsOut params outs2) this.
Proof.
  intros Hhead Hlen. unfold queryExit.
  cbn [withAmountsOut signer tokenInfo bptIn slippageBsp amountsOut].
  rewrite Hlen.
  destruct outs1 as [|a1 l1], outs2 as [|a2 l2]; simpl in Hhead; try discriminate;
    [reflexivity|].
  injection Hhead as Hhead.
  cbv beta iota zeta delta [bind liftR]. rewrite Hhead. reflexivity.
Qed.

End Extras.

(** ** Runs of the concrete handler *)

Section Runs.

Import Scenario ExtraScenario.

Lemma query_of_unknown_pool_with_pending_result :
  queryExit NATIVE_ASSET_ADDRESS flatTokenTree env_no_pool
    (exitParams tokenList "10.0" [USDC]) pending
  = (Throw (FailedToFindPool POOL_ID), pending,
     [SignerGetAddress; PoolsFind POOL_ID]).
Proof. compute_done. Qed.

Lemma query_with_failing_price_impact :
  queryExit NATIVE_ASSET_ADDRESS flatTokenTree env_price_impact_throws
    (exitParams tokenList "10.0" [USDC]) fresh
  = (Throw FailedToCalculatePriceImpact,
     built "10000000000000000000" false ["5000000"; "0"],
     [ SignerGetAddress; PoolsFind POOL_ID;
       BuildExitExactBPTIn EXITER "10000000000000000000" "50" false (Some usdc);
       CalcPriceImpact ["5000000"; "0"] "10000000000000000000" false;
       CaptureBalancerException (Rejected "BAL#004") ]).
Proof. compute_done. Qed.

Lemma query_without_requested_output :
  queryExit NATIVE_ASSET_ADDRESS flatTokenTree env_ok
    (exitParams tokenList "10.0" []) fresh
  = (Throw (TypeError "amountsOut[0] is undefined"), fresh,
     [SignerGetAddress; PoolsFind POOL_ID]).
Proof. compute_done. Qed.

Lemma query_with_empty_bpt_amount :
  queryExit NATIVE_ASSET_ADDRESS flatTokenTree env_ok
    (exitParams tokenList "" [USDC]) fresh
  = (Throw (ArgumentError "invalid decimal value"), fresh,
     [SignerGetAddress; PoolsFind POOL_ID]).
Proof. compute_done. Qed.

End Runs.

Lemma X1_witness :
  exit Scenario.NATIVE_ASSET_ADDRESS Scenario.flatTokenTree Scenario.env_ok
    (Scenario.exitParams Scenario.tokenList "10.0" [Scenario.USDC])
    Scenario.fresh
  = (Ok {| hash := "0x01" |},
     Scenario.built "10000000000000000000" false ["5000000"; "0"]%string,
     [ SignerGetAddress; PoolsFind Scenario.POOL_ID;
       BuildExitExactBPTIn Scenario.EXITER "10000000000000000000" "50" false
         (Some Scenario.usdc);
       CalcPriceImpact ["5000000"; "0"]%string "10000000000000000000" false;
       SendTransaction Scenario.VAULT "0x8bdb391310000000000000000000" ]).
Proof.
  destruct (X1_exit_submits_pending_result _ _ _ _ _ _ _ _
              single_output_query_returns) as (res & Hres & Hexit).
  injection Hres as <-. exact Hexit.
Defined.

Lemma X2_witness :
  exit Scenario.NATIVE_ASSET_ADDRESS Scenario.flatTokenTree Scenario.env_no_pool
    (Scenario.exitParams Scenario.tokenList "10.0" [Scenario.USDC])
    ExtraScenario.pending
  = (Throw (FailedToFindPool Scenario.POOL_ID), ExtraScenario.pending,
     [SignerGetAddress; PoolsFind Scenario.POOL_ID]).
Proof.
  exact (proj1 (X2_exit_propagates_query_error _ _ _ _ _ _ _ _
                  query_of_unknown_pool_with_pending_result)).
Defined.

Lemma X3_witness :
  collaboratorCalls
    [ SignerGetAddress; PoolsFind Scenario.POOL_ID;
      BuildExitExactBPTIn Scenario.EXITER "20000000000000000000" "50" false
        (Some Scenario.usdc);
      CaptureBalancerException (Rejected "BAL#302") ]
  `prefix_of` [ToSigner; ToRegistry; ToBuilder; ToPriceImpact].
Proof.
  exact (proj1 (X3_call_order _ _ _ _ _ _ _ _ failed_build_on_fresh_instance)).
Defined.

Lemma X4_witness :
  exists parsed sor,
    Ethers.parseFixed "10.0" 18 = Ok parsed /\
    "10000000000000000000"%string = Ethers.toString parsed /\
    formatAddressForSor Scenario.NATIVE_ASSET_ADDRESS Scenario.USDC = Ok sor /\
    Some Scenario.usdc = Some (Ethers.toLowerCase sor).
Proof.
  destruct (X4_build_arguments _ _ _ _ _ _ _ _
              Scenario.EXITER "10000000000000000000"%string "50"%string false
              (Some Scenario.usdc) single_output_query_returns)
    as (first & rest & tokenOut & parsed & sor & Hout & Hsel & _ & Hparsed
        & Hbpt & _ & _ & Hsor & Hsingle).
  { simpl. auto. }
  injection Hout as <- <-.
  assert (Htoken : tokenOut
                   = {| TokenInfo.address := Scenario.USDC; TokenInfo.decimals := 6 |}).
  { vm_compute in Hsel. now injection Hsel as <-. }
  subst tokenOut. exists parsed, sor. auto.
Defined.

Lemma X5_witness :
  exists sdkPool,
    pools_find Scenario.env_build_throws (Pool.id (pool Scenario.fresh))
    = Ok (Some sdkPool).
Proof.
  destruct (X5_captured_errors_come_from_the_sdk _ _ _ _ _ _ _ _
              (Rejected "BAL#302") failed_build_on_fresh_instance)
    as [Hfind|(sdkPool & Hfind & _)].
  - simpl. auto.
  - discriminate Hfind.
  - exists sdkPool. exact Hfind.
Defined.

Lemma X6_witness :
  Signer.getAddress Scenario.theSigner = Throw FailedToCalculatePriceImpact
  \/ FailedToCalculatePriceImpact = FailedToFindPool Scenario.POOL_ID
  \/ isArgumentError FailedToCalculatePriceImpact = true
  \/ FailedToCalculatePriceImpact = FailedToConstructExit
  \/ FailedToCalculatePriceImpact = FailedToCalculatePriceImpact.
Proof.
  destruct (X6_error_taxonomy _ _ _ _ _ _ _ _ query_with_failing_price_impact)
    as [H|[H|[[_ [m H]]|[(first & rest & _ & H)|[H|[H|H]]]]]]; auto;
    discriminate H.
Defined.

Lemma X7_witness :
  exists res,
    lastExitRes (Scenario.built "10000000000000000000" false
                   ["5000000"; "0"]%string) = Some res /\
    ["5000000"; "0"]%string = expectedAmountsOut res /\
    res = Scenario.response "0x8bdb391310000000000000000000" false
            ["5000000"; "0"]%string.
Proof.
  destruct (X7_price_impact_failure _ _ _ _ _ _ _ _
              ExtraScenario.priceImpactFailingSdkPool
              ["5000000"; "0"]%string "10000000000000000000"%string
              false (Rejected "BAL#004")
              query_with_failing_price_impact)
    as (_ & _ & exiter & slippage & unwrap & single & res & _ & Hres
        & Hamounts & _ & _).
  - reflexivity.
  - simpl. auto 10.
  - reflexivity.
  - exists res. repeat apply conj; [exact Hres|exact Hamounts|].
    injection Hres as <-. reflexivity.
Defined.

Lemma X8_witness :
  exists message,
    Throw (A := QueryOutput.t) (TypeError "amountsOut[0] is undefined")
    = Throw (TypeError message).
Proof.
  refine (proj1 (proj2 (X8_no_requested_output _ _ _ _ _ _ _ _ _
                          query_without_requested_output))
                Scenario.EXITER Scenario.sdkPool _ _).
  - reflexivity.
  - reflexivity.
  - reflexivity.
Defined.

Lemma X9_witness :
  forallb (fun ev => negb (isBuildExitExactBPTIn ev))
    [SignerGetAddress; PoolsFind Scenario.POOL_ID] = true.
Proof.
  refine (proj1 (proj2 (proj2 (X9_rejected_bpt_amount _ _ _ _ _ _ _ _
                                 (ArgumentError "invalid decimal value") _
                                 query_with_empty_bpt_amount)))).
  vm_compute. reflexivity.
Defined.

Lemma X10_witness :
  exists res,
    Scenario.built "10000000000000000000" false ["5000000"; "0"]%string
    = {| pool := pool Scenario.fresh; lastExitRes := Some res |}.
Proof.
  destruct (X10_pending_result_frame _ _ _ _ _ _ _ _ single_output_query_returns)
    as [H|(sdkPool & exiter & evmBptIn & slippage & unwrap & single & res
           & _ & _ & _ & H)].
  - discriminate H.
  - exists res. exact H.
Defined.

(** the query of an instance with a pending result, from the query of a
    fresh one *)
Lemma X11_witness :
  queryExit Scenario.NATIVE_ASSET_ADDRESS Scenario.flatTokenTree Scenario.env_ok
    (Scenario.exitParams Scenario.tokenList "10.0" [Scenario.USDC])
    ExtraScenario.pending
  = (Ok (Scenario.output {[ Scenario.USDC := "5.0"%string ]}),
     Scenario.built "10000000000000000000" false ["5000000"; "0"]%string,
     [ SignerGetAddress; PoolsFind Scenario.POOL_ID;
       BuildExitExactBPTIn Scenario.EXITER "10000000000000000000" "50" false
         (Some Scenario.usdc);
       CalcPriceImpact ["5000000"; "0"]%string "10000000000000000000" false ]).
Proof.
  destruct (queryExit Scenario.NATIVE_ASSET_ADDRESS Scenario.flatTokenTree
              Scenario.env_ok
              (Scenario.exitParams Scenario.tokenList "10.0" [Scenario.USDC])
              ExtraScenario.pending) as [[r2 t2] evs2] eqn:H2.
  assert (Hbuilder :
            forall exiter evmBptIn slippage unwrap single error,
              buildExitExactBPTIn Scenario.sdkPool exiter evmBptIn slippage
                unwrap single <> Throw error).
  { intros exiter evmBptIn slippage unwrap single error. discriminate. }
  destruct (X11_pending_result_overwritten
              Scenario.NATIVE_ASSET_ADDRESS Scenario.flatTokenTree Scenario.env_ok
              (Scenario.exitParams Scenario.tokenList "10.0" [Scenario.USDC])
              Scenario.fresh ExtraScenario.pending Scenario.sdkPool
              eq_refl eq_refl Hbuilder
              _ _ _ _ _ _ single_output_query_returns H2)
    as (Hr & Hevs & Hthis).
  rewrite <- Hr, <- Hevs, <- (Hthis eq_refl). reflexivity.
Defined.

Lemma X12_witness :
  exists impact,
    calcPriceImpact Scenario.sdkPool ["5000000"; "0"]%string
      "10000000000000000000" false = Ok impact /\
    Ethers.formatFixed impact 18 = Ok "0.001"%string /\
    QueryOutput.priceImpact (Scenario.output {[ Scenario.USDC := "5.0"%string ]})
    = Number "0.001".
Proof.
  destruct (X12_price_impact_of_pending_result _ _ _ _ _ _ _ _
              single_output_query_returns)
    as (res & parsed & sdkPool & impact & printed & Hres & Hparsed & Hfind & _
        & Hcalc & _ & Hformat & Hnumber).
  injection Hres as <-. injection Hfind as <-.
  vm_compute in Hparsed. injection Hparsed as <-.
  injection Hnumber as <-.
  exists impact. repeat apply conj; [exact Hcalc|exact Hformat|reflexivity].
Defined.

Lemma X13_witness :
  exists tokenOut i raw amount,
    selectByAddress Scenario.tokenList Scenario.USDC = Ok (Some tokenOut) /\
    ["5000000"; "0"]%string !! i = Some raw /\
    Ethers.formatFixed raw (TokenInfo.decimals tokenOut) = Ok amount /\
    QueryOutput.amountsOut (Scenario.output {[ Scenario.USDC := "5.0"%string ]})
    = {[ TokenInfo.address tokenOut := amount ]}.
Proof.
  destruct (X13_single_output_amount
              Scenario.NATIVE_ASSET_ADDRESS Scenario.flatTokenTree Scenario.env_ok
              (Scenario.exitParams Scenario.tokenList "10.0" [Scenario.USDC])
              Scenario.fresh _ _ _ (Scenario.request Scenario.USDC)
              eq_refl single_output_query_returns)
    as (tokenOut & res & tokensOut & sor & i & raw & amount & Hsel & Hres & _
        & _ & _ & Hraw & Hformat & Hmap).
  injection Hres as <-. exists tokenOut, i, raw, amount. auto.
Defined.

Lemma X14_witness :
  (size (QueryOutput.amountsOut
           (Scenario.output {[ Scenario.USDC := "2.5"%string;
                               Scenario.WETH := "0.001"%string ]})) <= 2)%nat.
Proof.
  destruct (X14_multi_output_entries
              Scenario.NATIVE_ASSET_ADDRESS Scenario.flatTokenTree Scenario.env_ok
              (Scenario.exitParams Scenario.tokenList "10.0"
                 [Scenario.USDC; Scenario.WETH])
              Scenario.fresh _ _ _ (le_n 2) multi_output_query_returns)
    as (res & tokensOut & Hres & _ & Hsize & _).
  injection Hres as <-. exact Hsize.
Defined.

Lemma X15_witness :
  exists key,
    Ethers.getAddress Scenario.weth = Ok key /\
    is_Some (QueryOutput.amountsOut
               (Scenario.output {[ Scenario.USDC := "2.5"%string;
                                   Scenario.WETH := "0.001"%string ]}) !! key).
Proof.
  refine (X15_multi_output_matched_assets
            Scenario.NATIVE_ASSET_ADDRESS Scenario.flatTokenTree Scenario.env_ok
            (Scenario.exitParams Scenario.tokenList "10.0"
               [Scenario.USDC; Scenario.WETH])
            Scenario.fresh _ _ _
            (Scenario.response "0x8bdb391310000000000000000000" false
               ["2500000"; "1000000000000000"]%string)
            [Scenario.usdc; Scenario.weth] 1%nat "1000000000000000"%string
            Scenario.weth
            {| PoolToken.address := Scenario.weth;
               PoolToken.decimals := Some 18%nat |}
            (le_n 2) multi_output_query_returns _ _ _ _ _ _).
  - reflexivity.
  - compute_done.
  - reflexivity.
  - reflexivity.
  - simpl. auto.
  - compute_done.
Defined.

Lemma X16_witness :
  queryExit Scenario.NATIVE_ASSET_ADDRESS Scenario.flatTokenTree Scenario.env_ok
    (withAmountsOut
       (Scenario.exitParams Scenario.tokenList "10.0" [Scenario.USDC])
       [Scenario.request Scenario.USDC])
    Scenario.fresh
  = queryExit Scenario.NATIVE_ASSET_ADDRESS Scenario.flatTokenTree Scenario.env_ok
      (withAmountsOut
         (Scenario.exitParams Scenario.tokenList "10.0" [Scenario.USDC])
         [ExtraScenario.filled Scenario.USDC "4.99"])
      Scenario.fresh.
Proof.
  apply X16_requested_amounts_not_read; reflexivity.
Defined.
